(** * Consistent Bayesian inversion (CBayesTutorial_Example2.ipynb)

    A shallow embedding of the notebook's computational cells: the
    rejection sampler (cell 5), the cell that builds the posterior sample
    set (cell 6, with the densities of cells 3 and 4) and the diagnostics
    cell (cell 7).

    - numpy's [float64] is Rocq's primitive binary64 [float]: division,
      comparison, NaN and infinities are IEEE 754's, and the facts used
      about them are proved from the specification of the operations
      ([SpecFloat]).
    - A one-dimensional array is a [list float]; a two-dimensional array is
      its list of rows.
    - A Python exception is an error value of [result].
    - numpy's global random generator is a state that [rejection_sampling]
      reads and advances.
    - scipy's [norm.pdf] and [gaussian_kde], numpy's sum and [np.log] are
      library code: they are parameters of the cells that call them.  The
      constructor [gaussian_kde] may raise; the notebook then stops at
      cell 4. *)

From Stdlib Require Import ZArith List Lia Bool Sorted.
From Stdlib Require Import Floats.
Import ListNotations.

Set Warnings "-inexact-float".
Local Open Scope float_scope.

(** ** Python exceptions *)

Inductive exn : Type :=
| ValueError          (* np.max of an empty array *)
| IndexError          (* fancy index out of bounds *)
| ZeroDivisionError   (* int / int with a zero divisor *)
| LinAlgError.        (* a singular covariance in gaussian_kde *)

Inductive result (A : Type) : Type :=
| Ok  : A -> result A
| Err : exn -> result A.
Arguments Ok {A} _.
Arguments Err {A} _.

Definition bind {A B : Type} (m : result A) (k : A -> result B) : result B :=
  match m with
  | Ok a => k a
  | Err e => Err e
  end.

Notation "x <- m ;; k" := (bind m (fun x => k))
  (at level 61, m at next level, right associativity).

(** ** numpy arrays *)

(** A one-dimensional [float64] array. *)
Definition ndarray := list float.

(** An array of indices, as [np.where] returns. *)
Definition intarray := list nat.

(** A two-dimensional [float64] array, row-major: [shape = (length rows,
    ncols)].  [ncols] is kept apart so that an array without rows still has
    a shape. *)
Record ndarray2 : Type := mk_ndarray2 {
  ncols : nat;
  rows  : list ndarray
}.

Definition shape0 (a : ndarray2) : nat := length (rows a).
Definition shape1 (a : ndarray2) : nat := ncols a.

(** Every row of a well-formed array has [ncols] entries. *)
Definition wf_ndarray2 (a : ndarray2) : Prop :=
  Forall (fun row => length row = ncols a) (rows a).

(** [a[:, j]]. *)
Definition column (a : ndarray2) (j : nat) : ndarray :=
  map (fun row => nth j row 0) (rows a).

(** Elementwise binary operation on two arrays of one length. *)
Fixpoint map2 {A B C : Type} (f : A -> B -> C) (a : list A) (b : list B)
  : list C :=
  match a, b with
  | x :: a', y :: b' => f x y :: map2 f a' b'
  | _, _ => []
  end.

(** [np.divide(a, b)]: IEEE division, entry by entry; a zero divisor gives
    an infinity or a NaN, never an exception. *)
Definition np_divide (a b : ndarray) : ndarray := map2 PrimFloat.div a b.

(** [a / M] with a scalar [M]. *)
Definition np_divide_scalar (a : ndarray) (M : float) : ndarray :=
  map (fun x => x / M) a.

(** [a >= b], entry by entry: a boolean array. *)
Definition np_greater_equal (a b : ndarray) : list bool :=
  map2 (fun x y => y <=? x) a b.

(** [a * b], entry by entry. *)
Definition np_multiply (a b : ndarray) : ndarray := map2 PrimFloat.mul a b.

(** [np.maximum] on two scalars, [(a >= b || isnan(a)) ? a : b]: a NaN on
    either side is propagated. *)
Definition maximum (a b : float) : float :=
  if (b <=? a) || is_nan a then a else b.

(** [np.max(r)]: the reduction of [np.maximum] over the array; it raises
    [ValueError] on an empty array.  Between zeros of different sign, which
    compare equal, this fold keeps the first; a vectorised build of numpy
    may return another one. *)
Definition np_max (r : ndarray) : result float :=
  match r with
  | [] => Err ValueError
  | x :: t => Ok (fold_left maximum t x)
  end.

(** [np.where(c)[0]]: the indices of the true entries, in increasing
    order.  [where_from i c] numbers the entries of [c] from [i]. *)
Fixpoint where_from (i : nat) (c : list bool) : intarray :=
  match c with
  | [] => []
  | b :: c' => if b then i :: where_from (S i) c' else where_from (S i) c'
  end.

Definition np_where (c : list bool) : intarray := where_from 0 c.

(** [a[idx]] for an index array [idx]: [IndexError] when an index is out of
    bounds. *)
Definition take (a : ndarray) (idx : intarray) : result ndarray :=
  if forallb (fun i => Nat.ltb i (length a)) idx
  then Ok (map (fun i => nth i a 0) idx)
  else Err IndexError.

(** [a[:, idx]]: the columns [idx] of a two-dimensional array, bounds
    checked against [a.shape[1]]. *)
Definition take_columns (a : ndarray2) (idx : intarray) : result ndarray2 :=
  if forallb (fun i => Nat.ltb i (shape1 a)) idx
  then Ok {| ncols := length idx;
             rows := map (fun row => map (fun i => nth i row 0) idx) (rows a) |}
  else Err IndexError.

(** A Python [int] as a [float64], correctly rounded (exact below 2^53, as
    every array size is). *)
Definition float_of_nat (n : nat) : float :=
  SF2Prim (binary_normalize prec emax (Z.of_nat n) 0 false).

(** Python's [a / b] on two [int]s: true division, [ZeroDivisionError] on a
    zero divisor. *)
Definition int_truediv (a b : nat) : result float :=
  match b with
  | O => Err ZeroDivisionError
  | S _ => Ok (float_of_nat a / float_of_nat b)
  end.

(** ** The random generator *)

(** numpy's global generator: the stream of values that successive calls of
    [np.random.uniform(low=0, high=1)] return, and how many were consumed. *)
Record RandomState : Type := mk_RandomState {
  draws : nat -> float;
  pos   : nat
}.

(** A computation that reads and advances the generator. *)
Definition Rand (A : Type) : Type := RandomState -> A * RandomState.

(** The generator after [n] more draws. *)
Definition advance (st : RandomState) (n : nat) : RandomState :=
  {| draws := draws st; pos := pos st + n |}.

(** The [i]-th value of the next call. *)
Definition next_draw (st : RandomState) (i : nat) : float :=
  draws st (pos st + i).

(** [np.random.uniform(low=0, high=1, size=N)]. *)
Definition uniform (size : nat) : Rand ndarray :=
  fun st => (map (draws st) (seq (pos st) size), advance st size).

(** The documented range of the draws: the half-open interval [0, 1). *)
Definition in_unit_interval (u : float) : Prop :=
  (0 <=? u) = true /\ (u <? 1) = true.

Definition uniform_stream (st : RandomState) : Prop :=
  forall n, in_unit_interval (draws st n).

(** ** Cell 5: [rejection_sampling] *)

Definition rejection_sampling (r : ndarray) : Rand (result intarray) :=
  fun st =>
    let N := length r in
    let (check, st') := uniform N st in
    (M <- np_max r ;;
     let new_r := np_divide_scalar r M in
     let idx := np_where (np_greater_equal new_r check) in
     Ok idx,
     st').

(** The acceptance test of index [i] against the maximum [M]:
    [new_r[i] >= check[i]]. *)
Definition accepts (w : ndarray) (M : float) (st : RandomState) (i : nat)
  : bool :=
  next_draw st i <=? nth i w 0 / M.

(** ** Cells 3, 4 and 6: the posterior *)

(** What cell 6 binds. *)
Record posterior : Type := mk_posterior {
  r               : ndarray;
  samples_to_keep : intarray;
  post_q          : ndarray;
  post_lam        : ndarray2;
  accept_rate     : float
}.

Section Posterior.

(** scipy's routines are not part of the notebook.  [norm.pdf(x, loc,
    scale)] is taken at one point.  The constructor
    [gaussian_kde(dataset, bw_method)] either raises (scipy raises
    [ValueError] for fewer than two samples and [LinAlgError] when all
    samples are equal, the covariance being singular) or returns the fitted
    density, which is evaluated at one point. *)
Variable norm_pdf : float -> float -> float -> float.
Variable bw_method : Type.
Variable GKDE : ndarray -> bw_method -> result (float -> float).
Variable silverman : bw_method.

(** Cell 3: [obs_vals = norm.pdf(qvals, loc=0.7, scale=1.0e-2)]. *)
Definition obs_vals (qvals : ndarray) : ndarray :=
  map (fun q => norm_pdf q 0.7 1.0e-2) qvals.

(** Cell 4: [q_kde = GKDE(qvals, 'silverman')], the fitted density or the
    exception of the constructor. *)
Definition q_kde (qvals : ndarray) : result (float -> float) :=
  GKDE qvals silverman.

(** Cell 6, run with the density that cell 4 fitted: [q_kde(qvals)]
    evaluates it at every sample. *)
Definition posterior_cell (density : float -> float) (qvals : ndarray)
  (lam : ndarray2) : Rand (result posterior) :=
  fun st =>
    let r := np_divide (obs_vals qvals) (map density qvals) in
    let (sampled, st') := rejection_sampling r st in
    (samples_to_keep <- sampled ;;
     post_q <- take qvals samples_to_keep ;;
     post_lam <- take_columns lam samples_to_keep ;;
     accept_rate <- int_truediv (length samples_to_keep) (shape0 lam) ;;
     Ok {| r := r;
           samples_to_keep := samples_to_keep;
           post_q := post_q;
           post_lam := post_lam;
           accept_rate := accept_rate |},
     st').

(** Cells 4 and 6 in sequence.  When the fit raises, the notebook stops at
    cell 4: cell 6 is not run and no draw is consumed. *)
Definition compute_posterior (qvals : ndarray) (lam : ndarray2)
  : Rand (result posterior) :=
  fun st =>
    match q_kde qvals with
    | Err e => (Err e, st)
    | Ok density => posterior_cell density qvals lam st
    end.

End Posterior.

(** ** Cell 7: diagnostics *)

Section Diagnostics.

(** numpy's reductions and [np.log] are library code: [np.add.reduce]
    (the float64 sum of the entries, in numpy's own summation order) and
    the logarithm at one point. *)
Variable np_add_reduce : ndarray -> float.
Variable np_log : float -> float.

(** [np.mean(a)]: the sum divided by the number of entries. *)
Definition np_mean (a : ndarray) : float :=
  np_add_reduce a / float_of_nat (length a).

(** [np.var(a, ddof)]: the mean of the squared deviations from
    [np.mean(a)], with divisor [max(N - ddof, 0)]. *)
Definition np_var_ddof (a : ndarray) (ddof : nat) : float :=
  let arrmean := np_mean a in
  let x := map (fun v => v - arrmean) a in
  let x := np_multiply x x in
  np_add_reduce x / float_of_nat (Nat.max (length a - ddof) 0).

(** [np.var(a)]: [ddof] defaults to 0. *)
Definition np_var (a : ndarray) : float := np_var_ddof a 0.

(** The four numbers the cell prints, in order. *)
Record diagnostics_report : Type := mk_report {
  mean                     : float;
  std_dev                  : float;
  mean_weight              : float;
  mean_weighted_log_weight : float
}.

(** The cell reads [post_q] and [r] as cell 6 bound them: [r] is the whole
    weight array, one entry per prior sample. *)
Definition diagnostics (p : posterior) : diagnostics_report :=
  {| mean := np_mean (post_q p);
     std_dev := PrimFloat.sqrt (np_var (post_q p));
     mean_weight := np_mean (r p);
     mean_weighted_log_weight :=
       np_mean (np_multiply (r p) (map np_log (r p))) |}.

End Diagnostics.

(** ** The vocabulary of the specification *)

(** A finite, strictly positive [float64]. *)
Definition finite_positive (x : float) : Prop :=
  (0 <? x) = true /\ (x <? infinity) = true.

(** [M] is the maximum of the weights [w]: an entry that no entry exceeds
    (so no entry is a NaN). *)
Definition is_maximum (w : ndarray) (M : float) : Prop :=
  In M w /\ Forall (fun x => (x <=? M) = true) w.

(** A weight that is zero, of either sign. *)
Definition zero_weight (x : float) : Prop := (x =? 0) = true.

(** [2^52], the mantissa of a normal power of two. *)
Definition two52 : positive := 4503599627370496.

(** [c] is the power of two [2^k], a normal number. *)
Definition power_of_two (c : float) (k : Z) : Prop :=
  Prim2SF c = S754_finite false two52 (k - 52).

(** [x] is a zero, an infinity, a NaN, or a normal number whose product
    with [2^k] is again in the normal range: the cases in which [2^k * x]
    is computed without rounding, overflow or underflow. *)
Definition scales_exactly (k : Z) (x : float) : bool :=
  match Prim2SF x with
  | S754_finite _ m e =>
      Pos.eqb (digits2_pos m) 53
      && Z.leb (-1074) (e + k) && Z.leb (e + k) 971
  | _ => true
  end.

(** The decoded float with [k] added to the exponent of a finite non-zero
    number: the exact product with [2^k]. *)
Definition SFscale (k : Z) (x : spec_float) : spec_float :=
  match x with
  | S754_finite s m e => S754_finite s m (e + k)
  | _ => x
  end.

(** The statistics of section 4.4, in the specification's words, over the
    library's sum and logarithm. *)
Section SpecStatistics.

Variable np_add_reduce : ndarray -> float.
Variable np_log : float -> float.

(** The arithmetic mean: the sum over the number of entries. *)
Definition arithmetic_mean (a : ndarray) : float :=
  np_add_reduce a / float_of_nat (length a).

(** The population standard deviation: the root of the sum of squared
    deviations from the mean over the number [K] of entries (not [K - 1]). *)
Definition population_std_dev (a : ndarray) : float :=
  let mu := arithmetic_mean a in
  PrimFloat.sqrt
    (np_add_reduce (map (fun x => (x - mu) * (x - mu)) a)
     / float_of_nat (length a)).

(** [weight * log(weight)], weight by weight. *)
Definition weighted_log (w : ndarray) : ndarray :=
  map (fun x => x * np_log x) w.

End SpecStatistics.

(** ** Inputs of the examples *)

(** A generator whose next draws are the entries of [l], then zeros. *)
Definition seeded (l : list float) : RandomState :=
  {| draws := fun n => nth n l 0; pos := 0 |}.

(** Stand-ins for scipy's densities in closed examples: the fit succeeds
    and every density value is 1, so every weight is 1. *)
Definition flat_pdf (x loc scale : float) : float := 1.
Definition flat_kde (dataset : ndarray) (bw : unit)
  : result (float -> float) :=
  Ok (fun _ => 1).

(** A stand-in for the library sum in closed examples: the entries added
    from left to right. *)
Definition sequential_sum (a : ndarray) : float :=
  fold_left PrimFloat.add a 0.

(** Four samples of the quantity of interest and a parameter array with one
    column per sample and two rows, the layout [lam[:, idx]] indexes. *)
Definition qvals4 : ndarray := [0.69; 0.7; 0.71; 0.7].
Definition lam2x4 : ndarray2 :=
  {| ncols := 4;
     rows := [[0.1; 0.2; 0.3; 0.4]; [-0.1; -0.2; -0.3; -0.4]] |}.

(** The same parameters with one row per sample, as the notebook's text
    describes the data ("a 10000 x 100 array"). *)
Definition lam4x2 : ndarray2 :=
  {| ncols := 2;
     rows := [[0.1; -0.1]; [0.2; -0.2]; [0.3; -0.3]; [0.4; -0.4]] |}.

(** ** Cell 9: the marginal means *)

Section Marginals.

Variable np_add_reduce : ndarray -> float.

(** [np.mean(a, 1)]: the mean of every row, the sum of the row over
    [a.shape[1]]. *)
Definition np_mean_axis1 (a : ndarray2) : ndarray :=
  map (fun row => (np_add_reduce row / float_of_nat (shape1 a))%float) (rows a).

(** Cell 9: the bars of the plot, [np.mean(post_lam, 1)]. *)
Definition marginal_means (p : posterior) : ndarray :=
  np_mean_axis1 (post_lam p).

End Marginals.

(** ** Further vocabulary *)

(** [l1] is a subsequence of [l2]: entries of [l2] in their order, each
    position used at most once. *)
Inductive subseq {A : Type} : list A -> list A -> Prop :=
| subseq_nil : subseq [] []
| subseq_skip x l1 l2 : subseq l1 l2 -> subseq l1 (x :: l2)
| subseq_take x l1 l2 : subseq l1 l2 -> subseq (x :: l1) (x :: l2).

(** Two generators whose next [n] draws coincide. *)
Definition same_draws (n : nat) (st1 st2 : RandomState) : Prop :=
  forall i, i < n -> next_draw st1 i = next_draw st2 i.

(** * Facts about binary64 arithmetic *)

(** The comparisons of [PrimFloat] are specified by [SFcompare] on the
    decoded sign, mantissa and exponent: a lexicographic order. *)

Ltac cmp_cases :=
  repeat match goal with
  | H : context [PosDef.Pos.compare_cont Eq ?a ?b] |- _ =>
      change (PosDef.Pos.compare_cont Eq a b) with (Pos.compare a b) in H
  | |- context [PosDef.Pos.compare_cont Eq ?a ?b] =>
      change (PosDef.Pos.compare_cont Eq a b) with (Pos.compare a b)
  end;
  repeat match goal with
  | |- context [Z.compare ?a ?b] => destruct (Z.compare_spec a b)
  | H : context [Z.compare ?a ?b] |- _ => destruct (Z.compare_spec a b)
  | |- context [Pos.compare ?a ?b] => destruct (Pos.compare_spec a b)
  | H : context [Pos.compare ?a ?b] |- _ => destruct (Pos.compare_spec a b)
  end;
  simpl in *; try discriminate; try reflexivity; try lia.

Ltac sf_cases :=
  repeat match goal with s : bool |- _ => destruct s end;
  simpl in *; try discriminate; try reflexivity; try congruence; cmp_cases.

(** Move a goal about primitive comparisons to the specification level. *)
Ltac to_spec :=
  unfold is_nan in *;
  rewrite ?FloatAxioms.leb_spec, ?FloatAxioms.ltb_spec, ?FloatAxioms.eqb_spec,
    ?FloatAxioms.div_spec, ?FloatAxioms.mul_spec in *;
  change (Prim2SF 0) with (S754_zero false) in *;
  change (Prim2SF 1) with (S754_finite false 4503599627370496 (-52)) in *;
  change (Prim2SF infinity) with (S754_infinity false) in *;
  unfold SFleb, SFltb, SFeqb, SF64div, SF64mul in *.

Ltac sf_destruct x :=
  let s := fresh "s" in let m := fresh "m" in let e := fresh "e" in
  destruct (Prim2SF x) as [s|s| |s m e].

Lemma leb_trans x y z :
  (x <=? y) = true -> (y <=? z) = true -> (x <=? z) = true.
Proof.
  to_spec. sf_destruct x; sf_destruct y; sf_destruct z;
    unfold SFcompare; intros H1 H2; sf_cases.
Qed.

Lemma leb_total x y :
  is_nan x = false -> is_nan y = false -> (x <=? y) = false -> (y <=? x) = true.
Proof.
  to_spec. sf_destruct x; sf_destruct y;
    unfold SFcompare; intros H1 H2 H3; sf_cases.
Qed.

Lemma leb_refl x : is_nan x = false -> (x <=? x) = true.
Proof.
  to_spec. sf_destruct x; unfold SFcompare; intros H1; sf_cases.
Qed.

Lemma leb_not_nan x y :
  (x <=? y) = true -> is_nan x = false /\ is_nan y = false.
Proof.
  to_spec. sf_destruct x; sf_destruct y;
    unfold SFcompare; intros H1; split; sf_cases.
Qed.

Lemma ltb_leb x y : (x <? y) = true -> (x <=? y) = true.
Proof.
  to_spec. destruct (SFcompare (Prim2SF x) (Prim2SF y)) as [[]|]; congruence.
Qed.

(** Two strictly positive numbers that compare equal are the same float. *)
Lemma leb_antisym_pos x y :
  (0 <? x) = true -> (x <=? y) = true -> (y <=? x) = true -> x = y.
Proof.
  intros H0 H1 H2. apply Prim2SF_inj. revert H0 H1 H2.
  to_spec. sf_destruct x; sf_destruct y;
    unfold SFcompare; intros H0 H1 H2; sf_cases; try (f_equal; lia).
Qed.

(** A NaN is above nothing. *)
Lemma leb_nan_r u y : is_nan y = true -> (u <=? y) = false.
Proof.
  to_spec. sf_destruct u; sf_destruct y;
    unfold SFcompare; intros H1; sf_cases.
Qed.

(** A non-negative number below a zero is a zero. *)
Lemma leb_zero_nonneg u z :
  (0 <=? u) = true -> (z =? 0) = true -> (u <=? z) = true -> (u =? 0) = true.
Proof.
  to_spec. sf_destruct u; sf_destruct z;
    unfold SFcompare; intros H1 H2 H3; sf_cases.
Qed.

Lemma zero_leb_positive x y :
  (x =? 0) = true -> (0 <? y) = true -> (x <=? y) = true.
Proof.
  to_spec. sf_destruct x; sf_destruct y;
    unfold SFcompare; intros H1 H2; sf_cases.
Qed.

Lemma positive_not_nan x : (0 <? x) = true -> is_nan x = false.
Proof.
  to_spec. sf_destruct x; unfold SFcompare; intros H1; sf_cases.
Qed.

(** *** Division *)

Lemma div_eucl_exact a b : (0 < b)%Z -> Z.div_eucl (b * a) b = (a, 0%Z).
Proof.
  intros Hb.
  assert (Hq : (b * a / b = a)%Z) by (rewrite Z.mul_comm; apply Z.div_mul; lia).
  assert (Hr : ((b * a) mod b = 0)%Z) by (rewrite Z.mul_comm; apply Z.mod_mul; lia).
  unfold Z.div, Z.modulo in Hq, Hr.
  destruct (Z.div_eucl (b * a) b) as [q r']. congruence.
Qed.

Lemma new_location_exact n : new_location n 0 = loc_Exact.
Proof.
  unfold new_location, new_location_even, new_location_odd.
  destruct (Z.even n); reflexivity.
Qed.

(** The quotient of a finite non-zero number by itself is computed as
    [2^53 * 2^-53] with an exact remainder, and rounds to [1.0]. *)
Lemma SFdiv_self s m e :
  SFdiv prec emax (S754_finite s m e) (S754_finite s m e)
  = S754_finite false 4503599627370496 (-52).
Proof.
  unfold SFdiv, SFdiv_core_binary.
  replace (Zdigits2 (Z.pos m) + e - (Zdigits2 (Z.pos m) + e))%Z with 0%Z by lia.
  replace (e - e)%Z with 0%Z by lia.
  change (IntDef.Z.min (fexp prec emax 0) 0) with (-53)%Z.
  change (0 - -53)%Z with 53%Z. cbv iota.
  change (IntDef.Z.shiftl (Z.pos m) 53) with (Z.shiftl (Z.pos m) 53).
  rewrite Z.shiftl_mul_pow2 by lia.
  change (IntDef.Z.div_eucl) with Z.div_eucl.
  rewrite div_eucl_exact by lia.
  rewrite new_location_exact.
  destruct s; reflexivity.
Qed.

Lemma div_self x : finite_positive x -> x / x = 1.
Proof.
  intros [Hpos Hfin]. apply Prim2SF_inj. revert Hpos Hfin.
  to_spec. sf_destruct x; unfold SFcompare; intros Hpos Hfin; sf_cases.
  exact (SFdiv_self false m e).
Qed.

(** [0 / 0] is a NaN, whatever the signs. *)
Lemma zero_div_zero x y :
  (x =? 0) = true -> (y =? 0) = true -> is_nan (x / y) = true.
Proof.
  to_spec. sf_destruct x; sf_destruct y;
    unfold SFcompare; intros H1 H2; sf_cases.
Qed.

(** [0 / M] is a zero when [M] is strictly positive, finite or not. *)
Lemma zero_div_positive x M :
  (x =? 0) = true -> (0 <? M) = true -> (x / M =? 0) = true.
Proof.
  to_spec. sf_destruct x; sf_destruct M;
    unfold SFcompare; intros H1 H2; sf_cases.
Qed.

(** * Facts about the array operations *)

Local Open Scope nat_scope.

Lemma map2_length {A B C} (f : A -> B -> C) a b :
  length (map2 f a b) = Nat.min (length a) (length b).
Proof.
  revert b. induction a as [|x a IH]; intros [|y b]; simpl; auto.
Qed.

Lemma map2_nth {A B C} (f : A -> B -> C) a b i da db dc :
  i < length a -> i < length b ->
  nth i (map2 f a b) dc = f (nth i a da) (nth i b db).
Proof.
  revert b i. induction a as [|x a IH]; intros [|y b] [|i]; simpl; intros Ha Hb;
    try lia; auto.
  apply IH; lia.
Qed.

Lemma map2_map_r {A B C D} (f : A -> C -> D) (g : B -> C) a b :
  map2 f a (map g b) = map2 (fun x y => f x (g y)) a b.
Proof.
  revert b. induction a as [|x a IH]; intros [|y b]; simpl; auto.
  now rewrite IH.
Qed.

Lemma map2_diag {A C} (f : A -> A -> C) a :
  map2 f a a = map (fun x => f x x) a.
Proof.
  induction a as [|x a IH]; simpl; auto. now rewrite IH.
Qed.

(** *** [np.where] *)

Lemma where_from_bounds i c :
  Forall (fun j => i <= j < i + length c) (where_from i c).
Proof.
  revert i. induction c as [|b c IH]; intros i; simpl; [constructor|].
  assert (Forall (fun j => i <= j < i + S (length c)) (where_from (S i) c)).
  { eapply Forall_impl; [|apply IH]. simpl. intros; lia. }
  destruct b; auto. constructor; auto. lia.
Qed.

Lemma where_from_sorted i c : StronglySorted lt (where_from i c).
Proof.
  revert i. induction c as [|b c IH]; intros i; simpl; [constructor|].
  destruct b; auto. constructor; auto.
  eapply Forall_impl; [|apply where_from_bounds]. simpl. intros; lia.
Qed.

Lemma where_from_In i c j :
  In j (where_from i c) <-> i <= j < i + length c /\ nth (j - i) c false = true.
Proof.
  revert i. induction c as [|b c IH]; intros i; simpl.
  - split; [tauto|]. intros [H _]. lia.
  - assert (Hstep : In j (where_from (S i) c) <->
                    S i <= j < i + S (length c) /\
                    match j - i with 0 => b | S m => nth m c false end = true).
    { rewrite IH. split; intros [H1 H2]; (split; [lia|]).
      - destruct (j - i) as [|m] eqn:E; [lia|].
        replace m with (j - S i) by lia. exact H2.
      - destruct (j - i) as [|m] eqn:E; [lia|].
        replace (j - S i) with m by lia. exact H2. }
    destruct b; simpl; rewrite Hstep.
    + split.
      * intros [<- | [H1 H2]]; [rewrite Nat.sub_diag; split; [lia|reflexivity]|].
        split; [lia|exact H2].
      * intros [H1 H2]. destruct (Nat.eq_dec i j) as [->|Hne]; [now left|].
        right. split; [lia|exact H2].
    + split; intros [H1 H2].
      * split; [lia|exact H2].
      * split; [|exact H2]. destruct (j - i) eqn:E; [discriminate|lia].
Qed.

Lemma np_where_In c j :
  In j (np_where c) <-> j < length c /\ nth j c false = true.
Proof.
  unfold np_where. rewrite where_from_In, Nat.sub_0_r. simpl.
  split; intros [H1 H2]; (split; [lia|exact H2]).
Qed.

Lemma StronglySorted_lt_NoDup (l : list nat) : StronglySorted lt l -> NoDup l.
Proof.
  induction 1 as [|a l Hs IH Hall]; constructor; auto.
  intros Hin. rewrite Forall_forall in Hall. specialize (Hall _ Hin). lia.
Qed.

(** *** [np.max] *)

Lemma maximum_cases a b : maximum a b = a \/ maximum a b = b.
Proof. unfold maximum. destruct ((b <=? a)%float || is_nan a); auto. Qed.

Lemma fold_maximum_In t x : In (fold_left maximum t x) (x :: t).
Proof.
  revert x. induction t as [|b t IH]; intros x; simpl; auto.
  destruct (IH (maximum x b)) as [E|Hin]; auto.
  rewrite <- E. destruct (maximum_cases x b) as [-> | ->]; auto.
Qed.

Lemma np_max_In w M : np_max w = Ok M -> In M w.
Proof.
  destruct w as [|x t]; simpl; [discriminate|].
  intros [= <-]. apply fold_maximum_In.
Qed.

Lemma np_max_nonempty w : w <> [] -> exists M, np_max w = Ok M.
Proof. destruct w as [|x t]; [congruence|]. simpl. eauto. Qed.

Lemma maximum_upper a b :
  is_nan a = false -> is_nan b = false ->
  (a <=? maximum a b)%float = true /\ (b <=? maximum a b)%float = true
  /\ is_nan (maximum a b) = false.
Proof.
  intros Ha Hb. unfold maximum. rewrite Ha, orb_false_r.
  destruct (b <=? a)%float eqn:E.
  - repeat split; auto using leb_refl.
  - repeat split; auto using leb_refl, leb_total.
Qed.

Lemma fold_maximum_upper t x :
  is_nan x = false -> Forall (fun y => is_nan y = false) t ->
  (x <=? fold_left maximum t x)%float = true
  /\ Forall (fun y => (y <=? fold_left maximum t x)%float = true) t.
Proof.
  revert x. induction t as [|b t IH]; intros x Hx Ht; simpl.
  - split; [now apply leb_refl | constructor].
  - inversion Ht as [|? ? Hb Ht']; subst.
    destruct (maximum_upper x b Hx Hb) as (Hxa & Hba & Hna).
    destruct (IH (maximum x b) Hna Ht') as [Hacc Hall].
    split; [eapply leb_trans; eauto|].
    constructor; [eapply leb_trans; eauto | exact Hall].
Qed.

(** On an array without NaN, [np.max] returns an entry that no entry
    exceeds. *)
Lemma np_max_upper w M :
  Forall (fun y => is_nan y = false) w -> np_max w = Ok M ->
  Forall (fun y => (y <=? M)%float = true) w.
Proof.
  destruct w as [|x t]; simpl; [discriminate|].
  intros Hall [= <-]. inversion Hall; subst.
  destruct (fold_maximum_upper t x) as [Hx Ht]; auto.
Qed.

(** A strictly positive maximum is what [np.max] returns, bit for bit. *)
Lemma np_max_of_maximum w M :
  is_maximum w M -> (0 <? M)%float = true -> np_max w = Ok M.
Proof.
  intros [Hin Hall] Hpos.
  destruct (np_max_nonempty w) as [M' HM'].
  { intros ->. inversion Hin. }
  rewrite HM'. f_equal. symmetry.
  assert (Hnan : Forall (fun y => is_nan y = false) w).
  { eapply Forall_impl; [|exact Hall]. intros y Hy.
    now destruct (leb_not_nan _ _ Hy). }
  pose proof (np_max_upper _ _ Hnan HM') as Hup.
  rewrite Forall_forall in Hall, Hup.
  apply leb_antisym_pos; auto using np_max_In.
Qed.

(** *** The sampler, unfolded *)

Lemma uniform_length n st : length (fst (uniform n st)) = n.
Proof. unfold uniform. simpl. now rewrite length_map, length_seq. Qed.

Lemma uniform_nth n st i d :
  i < n -> nth i (fst (uniform n st)) d = next_draw st i.
Proof.
  intros Hi. unfold uniform, next_draw. simpl.
  rewrite (nth_indep _ d (draws st 0)) by (now rewrite length_map, length_seq).
  rewrite map_nth, seq_nth by exact Hi. reflexivity.
Qed.

Lemma rejection_sampling_error st :
  rejection_sampling [] st = (Err ValueError, st).
Proof.
  unfold rejection_sampling, uniform, advance. simpl.
  rewrite Nat.add_0_r. destruct st; reflexivity.
Qed.

Lemma rejection_sampling_unfold w M st :
  np_max w = Ok M ->
  exists idx,
    rejection_sampling w st = (Ok idx, advance st (length w))
    /\ (forall i, In i idx <-> i < length w /\ accepts w M st i = true)
    /\ StronglySorted lt idx.
Proof.
  intros HM. unfold rejection_sampling.
  destruct (uniform (length w) st) as [check st'] eqn:Hu.
  assert (Hst : st' = advance st (length w)) by (unfold uniform in Hu; congruence).
  assert (Hchk : check = fst (uniform (length w) st)) by (now rewrite Hu).
  rewrite HM. simpl. eexists. split; [rewrite Hst; reflexivity|].
  split; [|apply where_from_sorted].
  intros i. rewrite np_where_In. unfold np_greater_equal, np_divide_scalar.
  rewrite map2_length, length_map, Hchk, uniform_length, Nat.min_id.
  split; intros [Hi Hacc]; (split; [exact Hi|]).
  - rewrite (map2_nth _ _ _ _ (0 / M)%float 0%float) in Hacc
      by (now rewrite ?length_map, ?uniform_length).
    rewrite uniform_nth, (map_nth (fun x => (x / M)%float)) in Hacc by exact Hi.
    exact Hacc.
  - rewrite (map2_nth _ _ _ _ (0 / M)%float 0%float)
      by (now rewrite ?length_map, ?uniform_length).
    rewrite uniform_nth, (map_nth (fun x => (x / M)%float)) by exact Hi.
    exact Hacc.
Qed.

(** * Scaling by a power of two *)

Lemma fexp_normal z : (-1074 <= z - 53)%Z -> fexp prec emax z = (z - 53)%Z.
Proof.
  unfold fexp. change (SpecFloat.emin prec emax) with (-1074)%Z.
  change IntDef.Z.max with Z.max. change prec with 53%Z. lia.
Qed.

Lemma digits2_two52 m :
  digits2_pos (two52 * m) = (digits2_pos m + 52)%positive.
Proof. unfold two52. cbn [Pos.mul]. cbn [digits2_pos]. lia. Qed.

Lemma shr_two52 m :
  iter_pos shr_1 52 {| shr_m := Z.pos (two52 * m); shr_r := false; shr_s := false |}
  = {| shr_m := Z.pos m; shr_r := false; shr_s := false |}.
Proof. unfold two52. cbn [Pos.mul]. reflexivity. Qed.

Lemma shr_fexp_two52 m e :
  digits2_pos m = 53%positive -> (-1074 <= e)%Z ->
  shr_fexp prec emax (Z.pos (two52 * m)) (e - 52) loc_Exact
  = ({| shr_m := Z.pos m; shr_r := false; shr_s := false |}, e).
Proof.
  intros Hd He. unfold shr_fexp, Zdigits2.
  rewrite digits2_two52, Hd.
  rewrite fexp_normal by lia.
  replace (Z.pos (53 + 52) + (e - 52) - 53 - (e - 52))%Z with 52%Z by lia.
  unfold shr_record_of_loc, shr. rewrite shr_two52. f_equal. lia.
Qed.

Lemma shr_fexp_normal m e :
  digits2_pos m = 53%positive -> (-1074 <= e)%Z ->
  shr_fexp prec emax (Z.pos m) e loc_Exact
  = ({| shr_m := Z.pos m; shr_r := false; shr_s := false |}, e).
Proof.
  intros Hd He. unfold shr_fexp, Zdigits2. rewrite Hd.
  rewrite fexp_normal by lia.
  replace (53 + e - 53 - e)%Z with 0%Z by lia.
  reflexivity.
Qed.

(** The product of [2^k] and a normal number, when it stays in the normal
    range, keeps the mantissa and adds [k] to the exponent. *)
Lemma SFmul_two52 k s m e :
  digits2_pos m = 53%positive ->
  (-1074 <= e + k <= 971)%Z ->
  SFmul prec emax (S754_finite false two52 (k - 52)) (S754_finite s m e)
  = S754_finite s m (e + k).
Proof.
  intros Hd [Hlo Hhi].
  unfold SFmul, binary_round_aux.
  change (xorb false s) with s.
  replace (k - 52 + e)%Z with (e + k - 52)%Z by lia.
  rewrite shr_fexp_two52 by assumption.
  cbn [shr_m loc_of_shr_record shr_r shr_s round_nearest_even].
  rewrite shr_fexp_normal by assumption.
  cbn [shr_m]. change (emax - prec)%Z with 971%Z.
  destruct (Z.leb_spec (e + k) 971); [reflexivity | lia].
Qed.

Lemma mul_power_of_two c k x :
  power_of_two c k -> scales_exactly k x = true ->
  Prim2SF (c * x) = SFscale k (Prim2SF x).
Proof.
  unfold power_of_two, scales_exactly. intros Hc Hx.
  rewrite FloatAxioms.mul_spec, Hc. unfold SF64mul.
  destruct (Prim2SF x) as [s|s| |s m e]; try reflexivity.
  apply andb_prop in Hx. destruct Hx as [Hx Hhi].
  apply andb_prop in Hx. destruct Hx as [Hd Hlo].
  apply Pos.eqb_eq in Hd. apply Z.leb_le in Hlo, Hhi.
  apply SFmul_two52; [exact Hd | lia].
Qed.

Lemma SFcompare_scale k a b :
  SFcompare (SFscale k a) (SFscale k b) = SFcompare a b.
Proof.
  destruct a as [sa|sa| |sa ma ea], b as [sb|sb| |sb mb eb]; try reflexivity.
  unfold SFscale, SFcompare.
  rewrite !(Z.add_comm _ k), Z.add_compare_mono_l. reflexivity.
Qed.

(** Division only looks at the difference of the exponents. *)
Lemma SFdiv_scale k a b :
  SFdiv prec emax (SFscale k a) (SFscale k b) = SFdiv prec emax a b.
Proof.
  destruct a as [sa|sa| |sa ma ea], b as [sb|sb| |sb mb eb]; try reflexivity.
  unfold SFscale, SFdiv, SFdiv_core_binary.
  replace (Zdigits2 (Z.pos ma) + (ea + k) - (Zdigits2 (Z.pos mb) + (eb + k)))%Z
    with (Zdigits2 (Z.pos ma) + ea - (Zdigits2 (Z.pos mb) + eb))%Z by lia.
  replace (ea + k - (eb + k))%Z with (ea - eb)%Z by lia.
  reflexivity.
Qed.

Section PowerOfTwo.

Variables (c : float) (k : Z).
Hypothesis Hc : power_of_two c k.

Lemma leb_scale x y :
  scales_exactly k x = true -> scales_exactly k y = true ->
  (c * x <=? c * y)%float = (x <=? y)%float.
Proof.
  intros Hx Hy. rewrite !FloatAxioms.leb_spec.
  rewrite !(mul_power_of_two c k) by assumption.
  unfold SFleb. now rewrite SFcompare_scale.
Qed.

Lemma is_nan_scale x :
  scales_exactly k x = true -> is_nan (c * x) = is_nan x.
Proof.
  intros Hx. unfold is_nan. rewrite !FloatAxioms.eqb_spec.
  rewrite !(mul_power_of_two c k) by assumption.
  unfold SFeqb. now rewrite SFcompare_scale.
Qed.

Lemma div_scale x y :
  scales_exactly k x = true -> scales_exactly k y = true ->
  (c * x / (c * y))%float = (x / y)%float.
Proof.
  intros Hx Hy. apply Prim2SF_inj. rewrite !FloatAxioms.div_spec.
  rewrite !(mul_power_of_two c k) by assumption.
  apply SFdiv_scale.
Qed.

Lemma maximum_scale x y :
  scales_exactly k x = true -> scales_exactly k y = true ->
  maximum (c * x) (c * y) = (c * maximum x y)%float.
Proof.
  intros Hx Hy. unfold maximum.
  rewrite leb_scale, is_nan_scale by assumption.
  destruct ((y <=? x)%float || is_nan x); reflexivity.
Qed.

Lemma maximum_scales_exactly x y :
  scales_exactly k x = true -> scales_exactly k y = true ->
  scales_exactly k (maximum x y) = true.
Proof.
  intros Hx Hy. destruct (maximum_cases x y) as [-> | ->]; assumption.
Qed.

Lemma fold_maximum_scale t x :
  scales_exactly k x = true ->
  Forall (fun y => scales_exactly k y = true) t ->
  fold_left maximum (map (fun y => c * y)%float t) (c * x)%float
  = (c * fold_left maximum t x)%float.
Proof.
  revert x. induction t as [|b t IH]; intros x Hx Ht; simpl; [reflexivity|].
  inversion Ht as [|? ? Hb Ht']; subst.
  rewrite maximum_scale by assumption.
  apply IH; [apply maximum_scales_exactly; assumption | exact Ht'].
Qed.

End PowerOfTwo.


(** * The rejection sampler *)

Lemma seeded_uniform l :
  Forall in_unit_interval l -> uniform_stream (seeded l).
Proof.
  intros Hl n. unfold seeded. simpl.
  destruct (Nat.lt_ge_cases n (length l)) as [Hn|Hn].
  - rewrite Forall_forall in Hl. apply Hl, nth_In, Hn.
  - rewrite nth_overflow by exact Hn. split; reflexivity.
Qed.

(** C3. For a weight sequence with a finite positive maximum [M], the
    sampler returns, whatever the draws are, exactly the indices [i] with
    [w[i] / M >= u_i], in increasing order, that is in the order of the
    input. *)
Theorem rejection_sampling_accepts_iff (w : ndarray) (M : float)
  (st : RandomState) :
  is_maximum w M -> finite_positive M ->
  exists idx,
    rejection_sampling w st = (Ok idx, advance st (length w))
    /\ (forall i, In i idx <->
                  i < length w
                  /\ (next_draw st i <=? nth i w 0 / M)%float = true)
    /\ StronglySorted lt idx.
Proof.
  intros Hmax [Hpos _].
  exact (rejection_sampling_unfold w M st (np_max_of_maximum w M Hmax Hpos)).
Qed.

Lemma rejection_sampling_accepts_iff_witness :
  exists idx,
    rejection_sampling [2; 4]%float (seeded [0.75; 0.5]%float)
    = (Ok idx, advance (seeded [0.75; 0.5]%float) 2)
    /\ (forall i, In i idx <->
                  i < 2
                  /\ (next_draw (seeded [0.75; 0.5]%float) i
                       <=? nth i [2; 4]%float 0 / 4)%float = true)
    /\ StronglySorted lt idx.
Proof.
  apply (rejection_sampling_accepts_iff [2; 4]%float 4%float).
  - split; [simpl; auto | repeat constructor].
  - split; reflexivity.
Defined.

(** C6. When some weight is strictly positive the sampler returns an index
    sequence that lies in [{0, ..., N-1}], is strictly increasing and has no
    duplicates. *)
Theorem accepted_indices_increasing (w : ndarray) (st : RandomState) :
  Exists (fun x => (0 <? x)%float = true) w ->
  exists idx,
    rejection_sampling w st = (Ok idx, advance st (length w))
    /\ Forall (fun i => i < length w) idx
    /\ StronglySorted lt idx
    /\ NoDup idx.
Proof.
  intros Hex.
  destruct (np_max_nonempty w) as [M HM].
  { intros ->. inversion Hex. }
  destruct (rejection_sampling_unfold w M st HM) as (idx & Hrun & Hin & Hsorted).
  exists idx. repeat split; auto using StronglySorted_lt_NoDup.
  apply Forall_forall. intros i Hi. now apply Hin.
Qed.

Lemma accepted_indices_increasing_witness :
  exists idx,
    rejection_sampling [2; 0; 4]%float (seeded [0.75; 0.5; 0.25]%float)
    = (Ok idx, advance (seeded [0.75; 0.5; 0.25]%float) 3)
    /\ Forall (fun i => i < 3) idx
    /\ StronglySorted lt idx
    /\ NoDup idx.
Proof.
  apply (accepted_indices_increasing [2; 0; 4]%float).
  constructor. reflexivity.
Defined.

(** C10. For a weight sequence with a finite positive maximum [M] and
    draws in [0, 1), every index whose weight is [M] is accepted: its
    normalised weight [M / M] is exactly 1, and [1 >= u] for every draw.
    Hence the accepted sequence is not empty. *)
Theorem maximum_weight_always_accepted (w : ndarray) (M : float)
  (st : RandomState) :
  is_maximum w M -> finite_positive M -> uniform_stream st ->
  exists idx,
    rejection_sampling w st = (Ok idx, advance st (length w))
    /\ (forall i, i < length w -> nth i w 0%float = M -> In i idx)
    /\ idx <> [].
Proof.
  intros Hmax Hfin Hst.
  destruct (rejection_sampling_unfold w M st) as (idx & Hrun & Hin & _).
  { apply np_max_of_maximum; [exact Hmax | apply Hfin]. }
  assert (Hacc : forall i, i < length w -> nth i w 0%float = M -> In i idx).
  { intros i Hi HM. apply Hin. split; [exact Hi|].
    unfold accepts. rewrite HM, div_self by exact Hfin.
    apply ltb_leb, Hst. }
  exists idx. repeat split; auto.
  destruct Hmax as [HinM _].
  destruct (In_nth w M 0%float HinM) as (i & Hi & HM).
  intros ->. exact (Hacc i Hi HM).
Qed.

Lemma maximum_weight_always_accepted_witness :
  exists idx,
    rejection_sampling [4; 2; 4]%float (seeded [0.75; 0.5; 0.25]%float)
    = (Ok idx, advance (seeded [0.75; 0.5; 0.25]%float) 3)
    /\ (forall i, i < 3 -> nth i [4; 2; 4]%float 0%float = 4%float -> In i idx)
    /\ idx <> [].
Proof.
  apply (maximum_weight_always_accepted [4; 2; 4]%float 4%float).
  - split; [simpl; auto | repeat constructor].
  - split; reflexivity.
  - apply seeded_uniform. repeat constructor.
Defined.

(** *** Zero weights *)

(** C4 fails as stated. All weights zero, two samples: [M = 0], the
    normalised weights are [0 / 0 = nan], no comparison with a NaN holds,
    and the sampler returns the empty index array.  No exception is
    raised. *)
Lemma all_zero_weights_return_normally :
  fst (rejection_sampling [0; 0]%float (seeded [0.5; 0.25]%float)) = Ok []
  /\ forall e,
       fst (rejection_sampling [0; 0]%float (seeded [0.5; 0.25]%float))
       <> Err e.
Proof. split; [vm_compute; reflexivity | intros e; vm_compute; discriminate]. Qed.

(** C4, amended. On a non-empty weight sequence whose entries are all zero
    the sampler raises nothing: it returns the empty index sequence (and has
    consumed [N] draws). *)
Theorem all_zero_weights_accept_nothing (w : ndarray) (st : RandomState) :
  w <> [] -> Forall zero_weight w ->
  rejection_sampling w st = (Ok [], advance st (length w)).
Proof.
  intros Hne Hzero.
  destruct (np_max_nonempty w Hne) as [M HM].
  destruct (rejection_sampling_unfold w M st HM) as (idx & Hrun & Hin & _).
  rewrite Hrun. repeat f_equal.
  destruct idx as [|i idx]; [reflexivity | exfalso].
  destruct (proj1 (Hin i) (or_introl eq_refl)) as [Hi Hacc].
  rewrite Forall_forall in Hzero.
  unfold accepts in Hacc. rewrite leb_nan_r in Hacc; [discriminate|].
  apply zero_div_zero; apply Hzero; [apply nth_In, Hi | eapply np_max_In, HM].
Qed.

Lemma all_zero_weights_accept_nothing_witness :
  rejection_sampling [0; 0; 0]%float (seeded [0.5; 0.25]%float)
  = (Ok [], advance (seeded [0.5; 0.25]%float) 3).
Proof.
  apply (all_zero_weights_accept_nothing [0; 0; 0]%float).
  - discriminate.
  - repeat constructor.
Defined.

(** The empty weight sequence: [np.max] raises [ValueError]. *)
Lemma empty_weights_value_error st :
  fst (rejection_sampling [] st) = Err ValueError.
Proof. now rewrite rejection_sampling_error. Qed.

(** C5 fails as stated. Weights [1, 0] and draws [0.5, 0.0], both in
    [0, 1): the second weight is zero, its normalised weight is
    [0 / 1 = 0], and [0 >= 0.0] holds, so index 1 is accepted beside
    index 0. *)
Lemma zero_weight_accepted_on_zero_draw :
  uniform_stream (seeded [0.5; 0]%float)
  /\ (0 <? nth 0 [1; 0]%float 0)%float = true
  /\ zero_weight (nth 1 [1; 0]%float 0%float)
  /\ fst (rejection_sampling [1; 0]%float (seeded [0.5; 0]%float)) = Ok [0; 1].
Proof.
  split; [apply seeded_uniform; repeat constructor|].
  repeat split; vm_compute; reflexivity.
Qed.

(** A single strictly positive weight, the others zero, is the maximum. *)
Lemma single_positive_is_maximum (w : ndarray) (k : nat) :
  k < length w ->
  (0 <? nth k w 0)%float = true ->
  (forall i, i < length w -> i <> k -> zero_weight (nth i w 0%float)) ->
  is_maximum w (nth k w 0%float).
Proof.
  intros Hk Hpos Hzero. split; [apply nth_In; exact Hk|].
  apply Forall_forall. intros x Hx.
  destruct (In_nth w x 0%float Hx) as (i & Hi & <-).
  destruct (Nat.eq_dec i k) as [->|Hne].
  - apply leb_refl, positive_not_nan. exact Hpos.
  - apply zero_leb_positive; [apply Hzero; assumption | exact Hpos].
Qed.

(** C5, amended. With exactly one strictly positive weight, at index [k],
    and all other weights zero, and draws in [0, 1): an accepted index is
    [k] or an index whose draw is exactly 0.  So with draws in (0, 1) only
    [k] can be accepted. *)
Theorem single_positive_weight (w : ndarray) (k : nat) (st : RandomState) :
  k < length w ->
  (0 <? nth k w 0)%float = true ->
  (forall i, i < length w -> i <> k -> zero_weight (nth i w 0%float)) ->
  uniform_stream st ->
  exists idx,
    rejection_sampling w st = (Ok idx, advance st (length w))
    /\ forall i, In i idx -> i = k \/ (next_draw st i =? 0)%float = true.
Proof.
  intros Hk Hpos Hzero Hst.
  pose proof (single_positive_is_maximum w k Hk Hpos Hzero) as Hmax.
  destruct (rejection_sampling_unfold w (nth k w 0%float) st)
    as (idx & Hrun & Hin & _).
  { apply np_max_of_maximum; assumption. }
  exists idx. split; [exact Hrun|].
  intros i Hi. apply Hin in Hi. destruct Hi as [Hi Hacc].
  destruct (Nat.eq_dec i k) as [->|Hne]; [left; reflexivity | right].
  unfold accepts in Hacc.
  destruct (Hst (pos st + i)) as [Hlow _].
  apply (leb_zero_nonneg _ (nth i w 0 / nth k w 0)%float Hlow); [|exact Hacc].
  apply zero_div_positive; [apply Hzero; assumption | exact Hpos].
Qed.

Lemma single_positive_weight_witness :
  exists idx,
    rejection_sampling [0; 3; 0]%float (seeded [0.5; 0.25; 0]%float)
    = (Ok idx, advance (seeded [0.5; 0.25; 0]%float) 3)
    /\ forall i, In i idx ->
         i = 1 \/ (next_draw (seeded [0.5; 0.25; 0]%float) i =? 0)%float = true.
Proof.
  apply (single_positive_weight [0; 3; 0]%float 1).
  - simpl. lia.
  - vm_compute. reflexivity.
  - intros i Hi Hne. simpl in Hi.
    assert (Hcases : i = 0 \/ i = 2) by lia.
    destruct Hcases as [-> | ->]; vm_compute; reflexivity.
  - apply seeded_uniform. repeat constructor.
Defined.

(** *** Rescaling the weights *)

(** C9 fails as stated. Weights [3, 4] scaled by [c = 0.1]: the products
    are [0.30000000000000004] and [0.4], and the first normalised weight
    becomes [0.7500000000000001] instead of [0.75].  With the draw
    [u_0 = 0.7500000000000001] index 0 is rejected for the original weights
    and accepted for the scaled ones. *)
Lemma rescaling_changes_accepted_set :
  is_maximum [3; 4]%float 4%float
  /\ finite_positive 4%float
  /\ (0 <? 0.1)%float = true
  /\ uniform_stream (seeded [0x1.8000000000001p-1; 0.5]%float)
  /\ fst (rejection_sampling [3; 4]%float
            (seeded [0x1.8000000000001p-1; 0.5]%float)) = Ok [1]
  /\ fst (rejection_sampling (map (fun x => 0.1 * x)%float [3; 4]%float)
            (seeded [0x1.8000000000001p-1; 0.5]%float)) = Ok [0; 1].
Proof.
  split; [split; [simpl; auto | repeat constructor]|].
  split; [split; vm_compute; reflexivity|].
  split; [vm_compute; reflexivity|].
  split; [apply seeded_uniform; repeat constructor|].
  split; vm_compute; reflexivity.
Qed.

(** A scale factor that overflows: [c * w] is [inf, inf], every normalised
    weight is [inf / inf = nan], and nothing is accepted. *)
Lemma rescaling_overflow_accepts_nothing :
  fst (rejection_sampling [2; 4]%float (seeded [0.75; 0.5]%float)) = Ok [1]
  /\ fst (rejection_sampling (map (fun x => 0x1p1023 * x)%float [2; 4]%float)
            (seeded [0.75; 0.5]%float)) = Ok [].
Proof. split; vm_compute; reflexivity. Qed.

Example powers_of_two :
  power_of_two 0.5%float (-1) /\ power_of_two 1%float 0
  /\ power_of_two 2%float 1 /\ power_of_two 1024%float 10.
Proof. repeat split; vm_compute; reflexivity. Qed.

(** C9, amended. When [c] is a power of two [2^k] and every weight is a
    zero or a normal number whose product with [c] stays in the normal
    range, so that [c * w] is computed exactly, the sampler accepts the same
    indices for [c * w] as for [w] under the same draws: the maximum scales
    with [c] and the normalised weights are unchanged. *)
Theorem rescaling_by_power_of_two (w : ndarray) (c : float) (k : Z)
  (st : RandomState) :
  power_of_two c k ->
  Forall (fun x => scales_exactly k x = true) w ->
  rejection_sampling (map (fun x => c * x)%float w) st
  = rejection_sampling w st.
Proof.
  intros Hc Hw. unfold rejection_sampling. rewrite length_map.
  destruct (uniform (length w) st) as [check st'].
  f_equal.
  destruct w as [|x t]; [reflexivity|].
  inversion Hw as [|? ? Hx Ht]; subst.
  cbn [map np_max bind].
  rewrite (fold_maximum_scale c k Hc) by assumption.
  set (M := fold_left maximum t x).
  assert (HM : scales_exactly k M = true).
  { pose proof (fold_maximum_In t x) as Hin. fold M in Hin.
    rewrite Forall_forall in Hw. apply Hw, Hin. }
  do 3 f_equal. unfold np_divide_scalar.
  change (c * x :: map (fun x0 => c * x0) t)%float
    with (map (fun x0 => c * x0)%float (x :: t)).
  rewrite map_map. apply map_ext_in.
  intros a Ha. rewrite Forall_forall in Hw.
  apply (div_scale c k Hc); [apply Hw, Ha | exact HM].
Qed.

Lemma rescaling_by_power_of_two_witness :
  rejection_sampling (map (fun x => 2 * x)%float [3; 0; 4]%float)
    (seeded [0.75; 0.5; 0.25]%float)
  = rejection_sampling [3; 0; 4]%float (seeded [0.75; 0.5; 0.25]%float).
Proof.
  apply (rescaling_by_power_of_two [3; 0; 4]%float 2%float 1%Z).
  - vm_compute. reflexivity.
  - repeat (constructor; [vm_compute; reflexivity|]). constructor.
Defined.

(** * The posterior *)

Lemma map_nth_in {A B} (f : A -> B) l i d d' :
  i < length l -> nth i (map f l) d = f (nth i l d').
Proof.
  intros Hi. rewrite (nth_indep _ d (f d')) by (rewrite length_map; exact Hi).
  apply map_nth.
Qed.

Lemma take_ok a idx :
  Forall (fun i => i < length a) idx ->
  take a idx = Ok (map (fun i => nth i a 0%float) idx).
Proof.
  intros Hidx. unfold take.
  replace (forallb (fun i => i <? length a) idx) with true; [reflexivity|].
  symmetry. apply forallb_forall. rewrite Forall_forall in Hidx.
  intros i Hi. apply Nat.ltb_lt, Hidx, Hi.
Qed.

Lemma take_columns_ok a idx :
  Forall (fun i => i < shape1 a) idx ->
  take_columns a idx
  = Ok {| ncols := length idx;
          rows := map (fun row => map (fun i => nth i row 0%float) idx) (rows a) |}.
Proof.
  intros Hidx. unfold take_columns.
  replace (forallb (fun i => i <? shape1 a) idx) with true; [reflexivity|].
  symmetry. apply forallb_forall. rewrite Forall_forall in Hidx.
  intros i Hi. apply Nat.ltb_lt, Hidx, Hi.
Qed.

Lemma column_take_columns a idx j :
  j < length idx ->
  column {| ncols := length idx;
            rows := map (fun row => map (fun i => nth i row 0%float) idx) (rows a) |} j
  = column a (nth j idx 0).
Proof.
  intros Hj. unfold column. simpl. rewrite map_map.
  apply map_ext. intros row.
  exact (map_nth_in (fun i => nth i row 0%float) idx j 0%float 0 Hj).
Qed.

Section PosteriorCell.

Variable norm_pdf : float -> float -> float -> float.
Variable density : float -> float.

Lemma weights_length qvals :
  length (np_divide (obs_vals norm_pdf qvals) (map density qvals))
  = length qvals.
Proof.
  unfold np_divide, obs_vals.
  rewrite map2_length, !length_map. apply Nat.min_id.
Qed.

Lemma weights_nth qvals i :
  i < length qvals ->
  nth i (np_divide (obs_vals norm_pdf qvals) (map density qvals)) 0%float
  = (norm_pdf (nth i qvals 0) 0.7 1.0e-2 / density (nth i qvals 0))%float.
Proof.
  intros Hi. unfold np_divide, obs_vals.
  rewrite (map2_nth _ _ _ _ 0%float 0%float) by (rewrite length_map; exact Hi).
  rewrite !(map_nth_in _ _ _ _ 0%float) by exact Hi. reflexivity.
Qed.

Lemma posterior_cell_accept_rate qvals lam st p st' :
  posterior_cell norm_pdf density qvals lam st = (Ok p, st') ->
  accept_rate p
  = (float_of_nat (length (samples_to_keep p)) / float_of_nat (shape0 lam))%float.
Proof.
  unfold posterior_cell.
  destruct (rejection_sampling _ st) as [[idx|e] st1]; simpl; [|discriminate].
  destruct (take qvals idx) as [pq|e]; simpl; [|discriminate].
  destruct (take_columns lam idx) as [pl|e]; simpl; [|discriminate].
  unfold int_truediv. destruct (shape0 lam) as [|n]; simpl; [discriminate|].
  intros [= <- _]. reflexivity.
Qed.

Lemma posterior_cell_lengths qvals lam st p st' :
  posterior_cell norm_pdf density qvals lam st = (Ok p, st') ->
  length (r p) = length qvals
  /\ length (post_q p) = length (samples_to_keep p).
Proof.
  unfold posterior_cell.
  destruct (rejection_sampling _ st) as [[idx|e] st1]; simpl; [|discriminate].
  unfold take at 1. destruct (forallb _ idx); simpl; [|discriminate].
  destruct (take_columns lam idx) as [pl|e]; simpl; [|discriminate].
  destruct (int_truediv (length idx) (shape0 lam)) as [rate|e]; simpl;
    [|discriminate].
  intros [= <- _]. simpl. split; [apply weights_length | apply length_map].
Qed.

(** The array that [take_columns] builds is well formed. *)
Lemma gathered_columns_wf (a : ndarray2) (idx : intarray) :
  wf_ndarray2
    {| ncols := length idx;
       rows := map (fun row => map (fun i => nth i row 0%float) idx) (rows a) |}.
Proof.
  unfold wf_ndarray2. cbn [rows ncols]. apply Forall_forall.
  intros row Hrow. apply in_map_iff in Hrow.
  destruct Hrow as (row0 & <- & _). apply length_map.
Qed.

(** Cell 6 on [N > 0] samples and a parameter array with [N] columns and at
    least one row. *)
Lemma posterior_cell_gathers (qvals : ndarray) (lam : ndarray2)
  (st : RandomState) :
  qvals <> [] ->
  shape1 lam = length qvals -> shape0 lam <> 0 ->
  exists p,
    posterior_cell norm_pdf density qvals lam st
    = (Ok p, advance st (length qvals))
    /\ length (r p) = length qvals
    /\ (forall i, i < length qvals ->
          nth i (r p) 0%float
          = (norm_pdf (nth i qvals 0) 0.7 1.0e-2
             / density (nth i qvals 0))%float)
    /\ fst (rejection_sampling (r p) st) = Ok (samples_to_keep p)
    /\ length (post_q p) = length (samples_to_keep p)
    /\ shape0 (post_lam p) = shape0 lam
    /\ shape1 (post_lam p) = length (samples_to_keep p)
    /\ wf_ndarray2 (post_lam p)
    /\ forall j, j < length (samples_to_keep p) ->
         nth j (post_q p) 0%float = nth (nth j (samples_to_keep p) 0) qvals 0%float
         /\ column (post_lam p) j = column lam (nth j (samples_to_keep p) 0).
Proof.
  intros Hne Hcols Hrows.
  assert (Hr : np_divide (obs_vals norm_pdf qvals) (map density qvals) <> []).
  { intros E. apply Hne, length_zero_iff_nil.
    rewrite <- weights_length, E. reflexivity. }
  destruct (np_max_nonempty _ Hr) as [M HM].
  destruct (rejection_sampling_unfold _ M st HM) as (idx & Hrun & Hin & _).
  rewrite weights_length in Hrun, Hin.
  assert (Hidx : Forall (fun i => i < length qvals) idx).
  { apply Forall_forall. intros i Hi. apply Hin, Hi. }
  unfold posterior_cell. rewrite Hrun. cbn [bind].
  rewrite (take_ok _ _ Hidx). cbn [bind].
  rewrite take_columns_ok by (rewrite Hcols; exact Hidx). cbn [bind].
  unfold int_truediv. destruct (shape0 lam) as [|n] eqn:Hshape; [congruence|].
  cbn [bind].
  eexists. split; [reflexivity|]. cbn [r samples_to_keep post_q post_lam].
  split; [apply weights_length|].
  split; [apply weights_nth|].
  split; [rewrite Hrun; reflexivity|].
  split; [apply length_map|].
  split; [unfold shape0 in *; cbn [rows]; rewrite length_map; exact Hshape|].
  split; [reflexivity|].
  split; [apply gathered_columns_wf|].
  intros j Hj. split.
  - exact (map_nth_in (fun i => nth i qvals 0%float) idx j 0%float 0 Hj).
  - apply column_take_columns, Hj.
Qed.

End PosteriorCell.

Section PosteriorFacts.

Variable norm_pdf : float -> float -> float -> float.
Variable bw_method : Type.
Variable GKDE : ndarray -> bw_method -> result (float -> float).
Variable silverman : bw_method.

(** After a successful fit, cells 4 and 6 are cell 6 with the fitted
    density. *)
Lemma compute_posterior_fitted qvals lam st density :
  GKDE qvals silverman = Ok density ->
  compute_posterior norm_pdf bw_method GKDE silverman qvals lam st
  = posterior_cell norm_pdf density qvals lam st.
Proof. intros Hfit. unfold compute_posterior, q_kde. rewrite Hfit. reflexivity. Qed.

(** A successful run comes from a successful fit. *)
Lemma compute_posterior_inv qvals lam st p st' :
  compute_posterior norm_pdf bw_method GKDE silverman qvals lam st = (Ok p, st') ->
  exists density,
    GKDE qvals silverman = Ok density
    /\ posterior_cell norm_pdf density qvals lam st = (Ok p, st').
Proof.
  unfold compute_posterior, q_kde.
  destruct (GKDE qvals silverman) as [density|e]; [|discriminate].
  intros H. exists density. split; [reflexivity | exact H].
Qed.

(** Whatever cell 6 returns, its acceptance rate is the number of accepted
    indices over the number of rows of [lam]. *)
Lemma accept_rate_is_size_over_rows qvals lam st p st' :
  compute_posterior norm_pdf bw_method GKDE silverman qvals lam st = (Ok p, st') ->
  accept_rate p
  = (float_of_nat (length (samples_to_keep p)) / float_of_nat (shape0 lam))%float.
Proof.
  intros H. destruct (compute_posterior_inv _ _ _ _ _ H) as (density & _ & Hcell).
  exact (posterior_cell_accept_rate _ _ _ _ _ _ _ Hcell).
Qed.

(** A successful run keeps one weight per sample and one posterior value
    per accepted index. *)
Lemma compute_posterior_lengths qvals lam st p st' :
  compute_posterior norm_pdf bw_method GKDE silverman qvals lam st = (Ok p, st') ->
  length (r p) = length qvals
  /\ length (post_q p) = length (samples_to_keep p).
Proof.
  intros H. destruct (compute_posterior_inv _ _ _ _ _ H) as (density & _ & Hcell).
  exact (posterior_cell_lengths _ _ _ _ _ _ _ Hcell).
Qed.

(** C2. When the fit of cell 4 succeeded, on [N > 0] samples and a
    well-formed parameter array with one column per sample (and at least
    one row), cell 6 returns; its weight at every index [i] is
    [obs(q[i]) / q_kde(q[i])] with [q_kde] the density fitted on [q]; and it
    gathers exactly the accepted indices [idx] from both arrays:
    [post_q] has one entry per accepted index and [post_q[j]] is
    [q[idx[j]]]; [post_lam] is a well-formed array with the rows of [lam]
    and one column per accepted index, and its [j]-th parameter vector
    (column) is the [idx[j]]-th parameter vector of [lam]. *)
Theorem compute_posterior_gathers (qvals : ndarray) (lam : ndarray2)
  (st : RandomState) (density : float -> float) :
  GKDE qvals silverman = Ok density ->
  qvals <> [] ->
  wf_ndarray2 lam -> shape1 lam = length qvals -> shape0 lam <> 0 ->
  exists p,
    compute_posterior norm_pdf bw_method GKDE silverman qvals lam st
    = (Ok p, advance st (length qvals))
    /\ length (r p) = length qvals
    /\ (forall i, i < length qvals ->
          nth i (r p) 0%float
          = (norm_pdf (nth i qvals 0) 0.7 1.0e-2
             / density (nth i qvals 0))%float)
    /\ fst (rejection_sampling (r p) st) = Ok (samples_to_keep p)
    /\ length (post_q p) = length (samples_to_keep p)
    /\ shape0 (post_lam p) = shape0 lam
    /\ shape1 (post_lam p) = length (samples_to_keep p)
    /\ wf_ndarray2 (post_lam p)
    /\ forall j, j < length (samples_to_keep p) ->
         nth j (post_q p) 0%float = nth (nth j (samples_to_keep p) 0) qvals 0%float
         /\ column (post_lam p) j = column lam (nth j (samples_to_keep p) 0).
Proof.
  intros Hfit Hne _ Hcols Hrows.
  rewrite (compute_posterior_fitted qvals lam st density Hfit).
  exact (posterior_cell_gathers norm_pdf density qvals lam st Hne Hcols Hrows).
Qed.

End PosteriorFacts.

Lemma compute_posterior_gathers_witness :
  exists p,
    compute_posterior flat_pdf unit flat_kde tt qvals4 lam2x4
      (seeded [0.5; 0.25; 0.75; 0]%float)
    = (Ok p, advance (seeded [0.5; 0.25; 0.75; 0]%float) (length qvals4))
    /\ length (r p) = length qvals4
    /\ (forall i, i < length qvals4 ->
          nth i (r p) 0%float
          = (flat_pdf (nth i qvals4 0) 0.7 1.0e-2
             / 1)%float)
    /\ fst (rejection_sampling (r p) (seeded [0.5; 0.25; 0.75; 0]%float))
       = Ok (samples_to_keep p)
    /\ length (post_q p) = length (samples_to_keep p)
    /\ shape0 (post_lam p) = shape0 lam2x4
    /\ shape1 (post_lam p) = length (samples_to_keep p)
    /\ wf_ndarray2 (post_lam p)
    /\ forall j, j < length (samples_to_keep p) ->
         nth j (post_q p) 0%float
         = nth (nth j (samples_to_keep p) 0) qvals4 0%float
         /\ column (post_lam p) j
            = column lam2x4 (nth j (samples_to_keep p) 0).
Proof.
  apply (compute_posterior_gathers flat_pdf unit flat_kde tt qvals4 lam2x4
           (seeded [0.5; 0.25; 0.75; 0]%float) (fun _ => 1%float)).
  - reflexivity.
  - discriminate.
  - repeat constructor.
  - reflexivity.
  - discriminate.
Defined.

(** With one row per sample, [lam[:, samples_to_keep]] indexes the
    parameter axis by sample numbers and raises [IndexError] as soon as an
    accepted index reaches the number of parameters: the cell only runs on
    an array with one column per sample. *)
Example row_per_sample_index_error :
  fst (compute_posterior flat_pdf unit flat_kde tt qvals4 lam4x2
         (seeded [0.5; 0.25; 0.75; 0]%float)) = Err IndexError.
Proof. vm_compute. reflexivity. Qed.

(** The notebook's own run: 2758 accepted samples and a parameter array
    with 100 rows print [27.58]. *)
Example recorded_accept_rate : int_truediv 2758 100 = Ok 27.58%float.
Proof. vm_compute. reflexivity. Qed.

(** C1 (a defect of the code). Four samples, all accepted, and a parameter
    array of two rows and four columns: [K = 4] and [N = 4], so [K / N] is
    1, but the cell divides by [lam.shape[0] = 2] and returns 2, which is not
    a rate. *)
Theorem accept_rate_divides_by_parameter_rows :
  exists p,
    fst (compute_posterior flat_pdf unit flat_kde tt qvals4 lam2x4
           (seeded [0.5; 0.25; 0.75; 0]%float)) = Ok p
    /\ samples_to_keep p = [0; 1; 2; 3]
    /\ length qvals4 = 4
    /\ shape0 lam2x4 = 2
    /\ accept_rate p = 2%float
    /\ (float_of_nat (length (samples_to_keep p)) / float_of_nat (length qvals4)
        = 1)%float.
Proof.
  eexists. split; [vm_compute; reflexivity|].
  repeat split; vm_compute; reflexivity.
Qed.

(** * The diagnostics *)

(** C7. The diagnostics cell reports the arithmetic mean of the accepted
    values [post_q]; their population standard deviation (divisor [K], the
    number of accepted values); the mean of the whole weight array [r]; and
    the mean of [r[i] * log(r[i])] over the whole weight array.  Sums and
    quotients are numpy's [float64] operations. *)
Theorem diagnostics_statistics (np_add_reduce : ndarray -> float)
  (np_log : float -> float) (p : posterior) :
  diagnostics np_add_reduce np_log p
  = {| mean := arithmetic_mean np_add_reduce (post_q p);
       std_dev := population_std_dev np_add_reduce (post_q p);
       mean_weight := arithmetic_mean np_add_reduce (r p);
       mean_weighted_log_weight :=
         arithmetic_mean np_add_reduce (weighted_log np_log (r p)) |}.
Proof.
  unfold diagnostics, np_var, np_var_ddof, np_mean, np_multiply,
    population_std_dev, arithmetic_mean, weighted_log.
  rewrite map2_diag, map_map, Nat.sub_0_r, Nat.max_0_r.
  rewrite map2_map_r, map2_diag, !length_map.
  reflexivity.
Qed.

(** After a successful run of cell 6 on [N] samples with [K] accepted
    indices, the mean of [post_q] divides by [K] and the mean weight divides
    by [N]: the rejected samples count. *)
Lemma diagnostics_divisors norm_pdf bw_method GKDE silverman np_add_reduce
  np_log qvals lam st p st' :
  compute_posterior norm_pdf bw_method GKDE silverman qvals lam st = (Ok p, st') ->
  mean (diagnostics np_add_reduce np_log p)
  = (np_add_reduce (post_q p)
     / float_of_nat (length (samples_to_keep p)))%float
  /\ mean_weight (diagnostics np_add_reduce np_log p)
     = (np_add_reduce (r p) / float_of_nat (length qvals))%float.
Proof.
  intros Hrun.
  destruct (compute_posterior_lengths _ _ _ _ _ _ _ _ _ Hrun) as [Hr Hq].
  unfold diagnostics, np_mean. simpl. rewrite Hr, Hq. split; reflexivity.
Qed.

(** Two accepted values 1 and 3: the reported deviation is 1 (divisor 2),
    not the sample deviation [sqrt 2] (divisor 1). *)
Example population_not_sample_deviation :
  std_dev (diagnostics sequential_sum (fun _ => 0%float)
             {| r := [1; 1; 1]%float; samples_to_keep := [0; 2];
                post_q := [1; 3]%float;
                post_lam := {| ncols := 2; rows := [] |};
                accept_rate := 1%float |})
  = 1%float
  /\ PrimFloat.sqrt (np_var_ddof sequential_sum [1; 3]%float 1)
     = 0x1.6a09e667f3bcdp+0%float.
Proof. split; vm_compute; reflexivity. Qed.

(** * Further facts about binary64: NaN and infinity *)

Lemma leb_nan_l x y : is_nan x = true -> (x <=? y)%float = false.
Proof.
  to_spec. sf_destruct x; sf_destruct y; unfold SFcompare; intros H1; sf_cases.
Qed.

Lemma div_nan_r x y : is_nan y = true -> is_nan (x / y) = true.
Proof.
  to_spec. sf_destruct x; sf_destruct y; unfold SFcompare; intros H1; sf_cases.
Qed.

Lemma leb_infinity_l M : (infinity <=? M)%float = true -> M = infinity.
Proof.
  intros H. apply Prim2SF_inj. revert H.
  to_spec. sf_destruct M; unfold SFcompare; intros H; sf_cases.
Qed.

Lemma infinity_div_infinity : is_nan (infinity / infinity) = true.
Proof. vm_compute. reflexivity. Qed.

Lemma sqrt_nan x : is_nan x = true -> is_nan (PrimFloat.sqrt x) = true.
Proof.
  unfold is_nan. rewrite !FloatAxioms.eqb_spec, FloatAxioms.sqrt_spec.
  unfold SFeqb, SF64sqrt.
  sf_destruct x; unfold SFcompare; intros H; sf_cases.
Qed.

(** *** [np.max] and NaN *)

Lemma maximum_nan a b :
  is_nan a = true \/ is_nan b = true -> is_nan (maximum a b) = true.
Proof.
  unfold maximum. intros [Ha | Hb].
  - rewrite Ha, orb_true_r. exact Ha.
  - destruct (is_nan a) eqn:Ha.
    + rewrite orb_true_r. exact Ha.
    + rewrite (leb_nan_l b a Hb). simpl. exact Hb.
Qed.

Lemma maximum_not_nan a b :
  is_nan (maximum a b) = false -> is_nan a = false /\ is_nan b = false.
Proof.
  intros H. split.
  - destruct (is_nan a) eqn:Ha; [|reflexivity].
    rewrite maximum_nan in H by (left; exact Ha). discriminate.
  - destruct (is_nan b) eqn:Hb; [|reflexivity].
    rewrite maximum_nan in H by (right; exact Hb). discriminate.
Qed.

Lemma fold_maximum_nan t x :
  is_nan x = true \/ Exists (fun y => is_nan y = true) t ->
  is_nan (fold_left maximum t x) = true.
Proof.
  revert x. induction t as [|b t IH]; intros x H; simpl.
  - destruct H as [H|H]; [exact H | inversion H].
  - apply IH. destruct H as [H|H].
    + left. apply maximum_nan. left. exact H.
    + inversion H as [? ? Hb|? ? Ht]; subst.
      * left. apply maximum_nan. right. exact Hb.
      * right. exact Ht.
Qed.

Lemma fold_maximum_upper_of_not_nan t x :
  is_nan (fold_left maximum t x) = false ->
  (x <=? fold_left maximum t x)%float = true
  /\ Forall (fun y => (y <=? fold_left maximum t x)%float = true) t.
Proof.
  revert x. induction t as [|b t IH]; intros x H; simpl in *.
  - split; [apply leb_refl; exact H | constructor].
  - destruct (IH _ H) as [Hacc Hall].
    destruct (leb_not_nan _ _ Hacc) as [Hm _].
    destruct (maximum_not_nan _ _ Hm) as [Hx Hb].
    destruct (maximum_upper x b Hx Hb) as (Hxa & Hba & _).
    split; [eapply leb_trans; eauto|].
    constructor; [eapply leb_trans; eauto | exact Hall].
Qed.

Lemma np_max_nan w M :
  Exists (fun y => is_nan y = true) w -> np_max w = Ok M -> is_nan M = true.
Proof.
  destruct w as [|x t]; simpl; [discriminate|].
  intros Hex [= <-]. apply fold_maximum_nan.
  inversion Hex; subst; [left | right]; assumption.
Qed.

Lemma np_max_upper_of_not_nan w M :
  np_max w = Ok M -> is_nan M = false ->
  Forall (fun y => (y <=? M)%float = true) w.
Proof.
  destruct w as [|x t]; simpl; [discriminate|].
  intros [= <-] H. destruct (fold_maximum_upper_of_not_nan t x H) as [Hx Ht].
  constructor; assumption.
Qed.

(** * Further properties of the rejection sampler *)

Lemma StronglySorted_lt_ext (l1 l2 : list nat) :
  StronglySorted lt l1 -> StronglySorted lt l2 ->
  (forall i, In i l1 <-> In i l2) -> l1 = l2.
Proof.
  intros H1. revert l2. induction H1 as [|a l1 Hs IH Ha]; intros l2 H2 Hiff.
  - destruct l2 as [|b l2]; auto. destruct (proj2 (Hiff b)); left; reflexivity.
  - destruct H2 as [|b l2 Hs2 Hb].
    + destruct (proj1 (Hiff a)); left; reflexivity.
    + rewrite Forall_forall in Ha, Hb.
      assert (a = b).
      { destruct (proj1 (Hiff a) (or_introl eq_refl)) as [E|Hin]; auto.
        destruct (proj2 (Hiff b) (or_introl eq_refl)) as [E|Hin']; auto.
        specialize (Ha _ Hin'). specialize (Hb _ Hin). lia. }
      subst b. f_equal. apply IH; auto.
      intros i. split; intros Hin.
      * destruct (proj1 (Hiff i) (or_intror Hin)) as [E|]; auto.
        subst i. specialize (Ha _ Hin). lia.
      * destruct (proj2 (Hiff i) (or_intror Hin)) as [E|]; auto.
        subst i. specialize (Hb _ Hin). lia.
Qed.

Lemma seq_StronglySorted a n : StronglySorted lt (seq a n).
Proof.
  revert a. induction n as [|n IH]; intros a; simpl; constructor; auto.
  apply Forall_forall. intros i Hi. apply in_seq in Hi. lia.
Qed.

(** The outcome of the sampler on a non-empty array, with the maximum that
    [np.max] computes. *)
Lemma rejection_sampling_nonempty w st :
  w <> [] ->
  exists M idx,
    np_max w = Ok M
    /\ rejection_sampling w st = (Ok idx, advance st (length w))
    /\ (forall i, In i idx <-> i < length w /\ accepts w M st i = true)
    /\ StronglySorted lt idx.
Proof.
  intros Hne. destruct (np_max_nonempty w Hne) as [M HM].
  destruct (rejection_sampling_unfold w M st HM) as (idx & H).
  exists M, idx. split; [exact HM | exact H].
Qed.

(** X1. On a non-empty array without NaN, [np.max] returns the maximum: an
    entry of the array that no entry exceeds. *)
Theorem np_max_is_maximum (w : ndarray) :
  w <> [] -> Forall (fun y => is_nan y = false) w ->
  exists M, np_max w = Ok M /\ is_maximum w M.
Proof.
  intros Hne Hnan. destruct (np_max_nonempty w Hne) as [M HM].
  exists M. split; [exact HM|]. split.
  - apply np_max_In, HM.
  - apply np_max_upper; assumption.
Qed.

Lemma np_max_is_maximum_witness :
  exists M, np_max [2; 7; 0.5]%float = Ok M /\ is_maximum [2; 7; 0.5]%float M.
Proof.
  apply np_max_is_maximum.
  - discriminate.
  - repeat (constructor; [vm_compute; reflexivity|]). constructor.
Defined.

(** X2. One NaN among the weights makes [np.max] a NaN and every
    normalised weight a NaN: the sampler accepts nothing and raises
    nothing. *)
Theorem nan_weight_accepts_nothing (w : ndarray) (st : RandomState) :
  Exists (fun x => is_nan x = true) w ->
  rejection_sampling w st = (Ok [], advance st (length w)).
Proof.
  intros Hex.
  destruct (rejection_sampling_nonempty w st) as (M & idx & HM & Hrun & Hin & _).
  { intros ->. inversion Hex. }
  rewrite Hrun. repeat f_equal.
  destruct idx as [|i idx]; [reflexivity | exfalso].
  destruct (proj1 (Hin i) (or_introl eq_refl)) as [Hi Hacc].
  unfold accepts in Hacc. rewrite leb_nan_r in Hacc; [discriminate|].
  apply div_nan_r. eapply np_max_nan; eassumption.
Qed.

Lemma nan_weight_accepts_nothing_witness :
  rejection_sampling [1; nan; 3]%float (seeded [0.5; 0.25; 0]%float)
  = (Ok [], advance (seeded [0.5; 0.25; 0]%float) 3).
Proof.
  apply (nan_weight_accepts_nothing [1; nan; 3]%float).
  apply Exists_cons_tl, Exists_cons_hd. vm_compute. reflexivity.
Defined.

Lemma infinite_weight_rejected w M st i :
  np_max w = Ok M -> i < length w -> nth i w 0%float = infinity ->
  accepts w M st i = false.
Proof.
  intros HM Hi Hinf. unfold accepts. rewrite Hinf.
  apply leb_nan_r.
  destruct (is_nan M) eqn:HnM; [apply div_nan_r; exact HnM|].
  pose proof (np_max_upper_of_not_nan w M HM HnM) as Hup.
  rewrite Forall_forall in Hup.
  assert (HM' : M = infinity).
  { apply leb_infinity_l. rewrite <- Hinf. apply Hup, nth_In, Hi. }
  rewrite HM'. apply infinity_div_infinity.
Qed.

(** X3. A sample whose weight is [+inf] is never accepted, whatever the
    other weights and the draws are: its normalised weight is
    [inf / inf = nan] (or [inf / nan]). *)
Theorem infinite_weight_never_accepted (w : ndarray) (st : RandomState)
  (i : nat) :
  i < length w -> nth i w 0%float = infinity ->
  exists idx,
    rejection_sampling w st = (Ok idx, advance st (length w))
    /\ ~ In i idx.
Proof.
  intros Hi Hinf.
  destruct (rejection_sampling_nonempty w st) as (M & idx & HM & Hrun & Hin & _).
  { intros ->. simpl in Hi. lia. }
  exists idx. split; [exact Hrun|].
  intros Hacc. apply Hin in Hacc. destruct Hacc as [_ Hacc].
  rewrite (infinite_weight_rejected w M st i HM Hi Hinf) in Hacc.
  discriminate.
Qed.

Lemma infinite_weight_never_accepted_witness :
  exists idx,
    rejection_sampling [1; infinity; 3]%float (seeded [0.5; 0; 0]%float)
    = (Ok idx, advance (seeded [0.5; 0; 0]%float) 3)
    /\ ~ In 1 idx.
Proof.
  apply (infinite_weight_never_accepted [1; infinity; 3]%float).
  - simpl. lia.
  - reflexivity.
Defined.

(** X4. When all weights are the same finite positive number and the
    draws lie in [0, 1), every sample is accepted: the sampler returns
    [0, 1, ..., N-1]. *)
Theorem constant_weights_accept_all (w : ndarray) (c : float)
  (st : RandomState) :
  w <> [] -> Forall (eq c) w -> finite_positive c -> uniform_stream st ->
  rejection_sampling w st = (Ok (seq 0 (length w)), advance st (length w)).
Proof.
  intros Hne Hc Hfin Hst.
  destruct (rejection_sampling_nonempty w st Hne)
    as (M & idx & HM & Hrun & Hin & Hsorted).
  rewrite Forall_forall in Hc.
  assert (HMc : M = c) by (symmetry; apply Hc; eapply np_max_In, HM).
  rewrite Hrun. do 2 f_equal.
  apply StronglySorted_lt_ext; [exact Hsorted | apply seq_StronglySorted |].
  intros i. rewrite Hin, in_seq. split; [intros [Hi _]; lia|].
  intros [_ Hi]. simpl in Hi. split; [exact Hi|].
  unfold accepts. rewrite HMc, <- (Hc (nth i w 0%float)) by (apply nth_In, Hi).
  rewrite div_self by exact Hfin. apply ltb_leb, Hst.
Qed.

Lemma constant_weights_accept_all_witness :
  rejection_sampling [3; 3; 3]%float (seeded [0.5; 0.25; 0.75]%float)
  = (Ok (seq 0 3), advance (seeded [0.5; 0.25; 0.75]%float) 3).
Proof.
  apply (constant_weights_accept_all [3; 3; 3]%float 3%float).
  - discriminate.
  - repeat constructor.
  - split; vm_compute; reflexivity.
  - apply seeded_uniform. repeat constructor.
Defined.

(** X5. The sampler consumes exactly [N] draws, also when it fails, and its
    result depends on no other draw: two generators whose next [N] draws
    coincide give the same result. *)
Theorem rejection_sampling_local (w : ndarray) (st1 st2 : RandomState) :
  same_draws (length w) st1 st2 ->
  fst (rejection_sampling w st1) = fst (rejection_sampling w st2)
  /\ snd (rejection_sampling w st1) = advance st1 (length w)
  /\ snd (rejection_sampling w st2) = advance st2 (length w).
Proof.
  intros Hsame. destruct w as [|x t].
  - rewrite !rejection_sampling_error. unfold advance. simpl.
    rewrite !Nat.add_0_r. destruct st1, st2. repeat split.
  - set (w := x :: t) in *.
    destruct (rejection_sampling_nonempty w st1)
      as (M1 & idx1 & HM1 & Hrun1 & Hin1 & Hs1); [discriminate|].
    destruct (rejection_sampling_nonempty w st2)
      as (M2 & idx2 & HM2 & Hrun2 & Hin2 & Hs2); [discriminate|].
    assert (M2 = M1) by congruence. subst M2.
    rewrite Hrun1, Hrun2. simpl. repeat split. f_equal.
    apply StronglySorted_lt_ext; auto.
    intros i. rewrite Hin1, Hin2. unfold accepts.
    split; intros [Hi Hacc]; (split; [exact Hi|]).
    + rewrite <- (Hsame i Hi). exact Hacc.
    + rewrite (Hsame i Hi). exact Hacc.
Qed.

Lemma rejection_sampling_local_witness :
  fst (rejection_sampling [2; 4]%float (seeded [0.75; 0.5; 0.125]%float))
  = fst (rejection_sampling [2; 4]%float (seeded [0.75; 0.5; 0.875]%float))
  /\ snd (rejection_sampling [2; 4]%float (seeded [0.75; 0.5; 0.125]%float))
     = advance (seeded [0.75; 0.5; 0.125]%float) 2
  /\ snd (rejection_sampling [2; 4]%float (seeded [0.75; 0.5; 0.875]%float))
     = advance (seeded [0.75; 0.5; 0.875]%float) 2.
Proof.
  apply (rejection_sampling_local [2; 4]%float).
  intros i Hi. simpl in Hi.
  assert (Hcases : i = 0 \/ i = 1) by lia.
  destruct Hcases as [-> | ->]; reflexivity.
Defined.

(** X6. Acceptance is monotone in the draws: if every draw of a second
    run is at most the corresponding draw of the first, every index the
    first run accepts is accepted by the second. *)
Theorem lower_draws_accept_more (w : ndarray) (st1 st2 : RandomState)
  (idx1 idx2 : intarray) :
  (forall i, i < length w ->
     (next_draw st2 i <=? next_draw st1 i)%float = true) ->
  fst (rejection_sampling w st1) = Ok idx1 ->
  fst (rejection_sampling w st2) = Ok idx2 ->
  incl idx1 idx2.
Proof.
  intros Hle H1 H2. destruct w as [|x t].
  - rewrite rejection_sampling_error in H1. discriminate.
  - set (w := x :: t) in *.
    destruct (rejection_sampling_nonempty w st1)
      as (M1 & i1 & HM1 & Hrun1 & Hin1 & _); [discriminate|].
    destruct (rejection_sampling_nonempty w st2)
      as (M2 & i2 & HM2 & Hrun2 & Hin2 & _); [discriminate|].
    assert (M2 = M1) by congruence. subst M2.
    rewrite Hrun1 in H1. rewrite Hrun2 in H2. simpl in H1, H2.
    injection H1 as <-. injection H2 as <-.
    intros i Hi. apply Hin1 in Hi. destruct Hi as [Hi Hacc].
    apply Hin2. split; [exact Hi|]. unfold accepts in *.
    eapply leb_trans; [apply Hle, Hi | exact Hacc].
Qed.

Lemma lower_draws_accept_more_witness :
  incl [1] [0; 1].
Proof.
  apply (lower_draws_accept_more [2; 4]%float
           (seeded [0.75; 0.5]%float) (seeded [0.25; 0.5]%float)).
  - intros i Hi. simpl in Hi.
    assert (Hcases : i = 0 \/ i = 1) by lia.
    destruct Hcases as [-> | ->]; vm_compute; reflexivity.
  - vm_compute. reflexivity.
  - vm_compute. reflexivity.
Defined.

(** X7. The sampler never returns more indices than there are weights:
    [K <= N]. *)
Theorem accepted_count_bounded (w : ndarray) (st : RandomState)
  (idx : intarray) :
  fst (rejection_sampling w st) = Ok idx -> length idx <= length w.
Proof.
  intros H. destruct w as [|x t].
  - rewrite rejection_sampling_error in H. discriminate.
  - set (w := x :: t) in *.
    destruct (rejection_sampling_nonempty w st)
      as (M & i0 & HM & Hrun & Hin & Hs); [discriminate|].
    rewrite Hrun in H. simpl in H. injection H as <-.
    rewrite <- (length_seq (length w) 0).
    apply NoDup_incl_length; [apply StronglySorted_lt_NoDup, Hs|].
    intros i Hi. apply in_seq. apply Hin in Hi. lia.
Qed.

Lemma accepted_count_bounded_witness : length [1] <= length [2; 4]%float.
Proof.
  apply (accepted_count_bounded [2; 4]%float (seeded [0.75; 0.5]%float)).
  vm_compute. reflexivity.
Defined.

(** * Further properties of cell 6 *)

Lemma forallb_false_Exists {A} (f : A -> bool) l :
  forallb f l = false <-> Exists (fun x => f x = false) l.
Proof.
  induction l as [|x l IH]; simpl.
  - split; [discriminate | intros H; inversion H].
  - rewrite andb_false_iff, IH. split.
    + intros [H|H]; [left | right]; assumption.
    + intros H. inversion H; subst; [left | right]; assumption.
Qed.

Lemma take_columns_error a idx :
  take_columns a idx = Err IndexError <-> Exists (fun i => shape1 a <= i) idx.
Proof.
  unfold take_columns.
  destruct (forallb (fun i => i <? shape1 a) idx) eqn:E.
  - split; [discriminate|]. intros Hex.
    rewrite forallb_forall in E. apply Exists_exists in Hex.
    destruct Hex as (i & Hi & Hge). apply E, Nat.ltb_lt in Hi. lia.
  - split; [intros _ | reflexivity].
    apply forallb_false_Exists in E.
    eapply Exists_impl; [|exact E]. simpl. intros i Hi.
    apply Nat.ltb_ge, Hi.
Qed.

Lemma gather_subseq {A} (d : A) (a : list A) (k : nat) (idx : list nat) :
  StronglySorted lt idx ->
  Forall (fun i => k <= i < k + length a) idx ->
  subseq (map (fun i => nth (i - k) a d) idx) a.
Proof.
  revert k idx. induction a as [|x a IH]; intros k idx Hs Hb.
  - destruct idx as [|i idx]; [constructor|].
    inversion Hb; subst. simpl in *. lia.
  - destruct idx as [|i idx].
    + simpl. constructor. apply (IH (S k) []); constructor.
    + inversion Hs as [|? ? Hs' Hlt]; subst.
      inversion Hb as [|? ? Hi Hb']; subst.
      rewrite Forall_forall in Hlt, Hb'.
      destruct (Nat.eq_dec i k) as [->|Hne].
      * simpl. rewrite Nat.sub_diag. apply subseq_take.
        rewrite (map_ext_in _ (fun j => nth (j - S k) a d)).
        -- apply IH; [exact Hs'|]. apply Forall_forall. intros j Hj.
           specialize (Hlt _ Hj). specialize (Hb' _ Hj). simpl in Hb'. lia.
        -- intros j Hj. specialize (Hlt _ Hj).
           replace (j - k) with (S (j - S k)) by lia. reflexivity.
      * apply subseq_skip.
        rewrite (map_ext_in _ (fun j => nth (j - S k) a d)).
        -- apply IH; [exact Hs|]. apply Forall_forall. intros j [<-|Hj].
           ++ simpl in Hi. lia.
           ++ specialize (Hlt _ Hj). specialize (Hb' _ Hj). simpl in Hb'. lia.
        -- intros j Hj.
           assert (k < j).
           { destruct Hj as [<-|Hj]; [simpl in Hi; lia|].
             specialize (Hlt _ Hj). lia. }
           replace (j - k) with (S (j - S k)) by lia. reflexivity.
Qed.

Lemma take_subseq {A} (d : A) (a : list A) (idx : list nat) :
  StronglySorted lt idx -> Forall (fun i => i < length a) idx ->
  subseq (map (fun i => nth i a d) idx) a.
Proof.
  intros Hs Hb.
  rewrite (map_ext _ (fun i => nth (i - 0) a d))
    by (intros i; now rewrite Nat.sub_0_r).
  apply gather_subseq; [exact Hs|].
  eapply Forall_impl; [|exact Hb]. simpl. intros; lia.
Qed.

Section PosteriorCellFacts.

Variable norm_pdf : float -> float -> float -> float.
Variable density : float -> float.

Lemma posterior_cell_empty lam st :
  posterior_cell norm_pdf density [] lam st = (Err ValueError, st).
Proof.
  unfold posterior_cell.
  change (np_divide (obs_vals norm_pdf []) (map density []))
    with (@nil float).
  rewrite rejection_sampling_error. reflexivity.
Qed.

(** Cell 6 on a non-empty sample set: the sampler succeeds, gathering from
    [qvals] cannot fail, and what is left is the gather from [lam] and the
    division. *)
Lemma posterior_cell_outcome qvals lam st :
  qvals <> [] ->
  exists M idx,
    np_max (np_divide (obs_vals norm_pdf qvals) (map density qvals)) = Ok M
    /\ rejection_sampling
         (np_divide (obs_vals norm_pdf qvals) (map density qvals)) st
       = (Ok idx, advance st (length qvals))
    /\ (forall i, In i idx <->
          i < length qvals
          /\ accepts (np_divide (obs_vals norm_pdf qvals)
                        (map density qvals)) M st i
             = true)
    /\ StronglySorted lt idx
    /\ posterior_cell norm_pdf density qvals lam st
       = (post_lam <- take_columns lam idx ;;
          accept_rate <- int_truediv (length idx) (shape0 lam) ;;
          Ok {| r := np_divide (obs_vals norm_pdf qvals) (map density qvals);
                samples_to_keep := idx;
                post_q := map (fun i => nth i qvals 0%float) idx;
                post_lam := post_lam;
                accept_rate := accept_rate |},
          advance st (length qvals)).
Proof.
  intros Hne.
  destruct (rejection_sampling_nonempty
              (np_divide (obs_vals norm_pdf qvals) (map density qvals)) st)
    as (M & idx & HM & Hrun & Hin & Hs).
  { intros E. apply Hne, length_zero_iff_nil.
    rewrite <- (weights_length norm_pdf density), E. reflexivity. }
  rewrite weights_length in Hrun, Hin.
  exists M, idx. repeat split; try assumption; try (apply Hin; assumption).
  unfold posterior_cell. rewrite Hrun. cbn [bind].
  rewrite take_ok; [reflexivity|].
  apply Forall_forall. intros i Hi. apply Hin, Hi.
Qed.

(** With a parameter array that has a row, cell 6 fails only in
    [lam[:, samples_to_keep]]. *)
Lemma posterior_cell_index_error_iff qvals lam st :
  shape0 lam <> 0 ->
  fst (posterior_cell norm_pdf density qvals lam st) = Err IndexError
  <->
  exists idx,
    fst (rejection_sampling
           (np_divide (obs_vals norm_pdf qvals) (map density qvals)) st)
    = Ok idx
    /\ Exists (fun i => shape1 lam <= i) idx.
Proof.
  intros Hrows. destruct qvals as [|q0 qs].
  - rewrite posterior_cell_empty.
    change (np_divide (obs_vals norm_pdf []) (map density []))
      with (@nil float).
    rewrite rejection_sampling_error. simpl. split.
    + discriminate.
    + intros (idx & H & _). discriminate.
  - set (qvals := q0 :: qs).
    destruct (posterior_cell_outcome qvals lam st)
      as (M & idx & _ & Hrun & _ & _ & Hcp); [discriminate|].
    rewrite Hcp, Hrun. cbn [fst]. split.
    + intros H. exists idx. split; [reflexivity|].
      apply take_columns_error.
      destruct (take_columns lam idx) as [pl|e]; cbn [bind] in H.
      * unfold int_truediv in H.
        destruct (shape0 lam); cbn [bind] in H; discriminate.
      * injection H as ->. reflexivity.
    + intros (idx' & [= <-] & Hex).
      apply take_columns_error in Hex. rewrite Hex. reflexivity.
Qed.

Lemma posterior_cell_succeeds_iff qvals lam st :
  shape0 lam <> 0 ->
  (exists p, fst (posterior_cell norm_pdf density qvals lam st) = Ok p)
  <->
  exists idx,
    fst (rejection_sampling
           (np_divide (obs_vals norm_pdf qvals) (map density qvals)) st)
    = Ok idx
    /\ Forall (fun i => i < shape1 lam) idx.
Proof.
  intros Hrows. destruct qvals as [|q0 qs].
  - rewrite posterior_cell_empty.
    change (np_divide (obs_vals norm_pdf []) (map density []))
      with (@nil float).
    rewrite rejection_sampling_error. simpl. split.
    + intros [p Hp]. discriminate.
    + intros (idx & H & _). discriminate.
  - set (qvals := q0 :: qs).
    destruct (posterior_cell_outcome qvals lam st)
      as (M & idx & _ & Hrun & _ & _ & Hcp); [discriminate|].
    rewrite Hcp, Hrun. cbn [fst]. split.
    + intros [p Hp].
      destruct (take_columns lam idx) as [pl|e] eqn:Htc; [|discriminate].
      exists idx. split; [reflexivity|].
      unfold take_columns in Htc.
      destruct (forallb (fun i => i <? shape1 lam) idx) eqn:E; [|discriminate].
      rewrite forallb_forall in E. apply Forall_forall.
      intros i Hi. apply Nat.ltb_lt, E, Hi.
    + intros (idx' & [= <-] & Hidx).
      rewrite take_columns_ok by exact Hidx. cbn [bind].
      unfold int_truediv. destruct (shape0 lam) as [|n]; [congruence|].
      cbn [bind]. eexists. reflexivity.
Qed.

Lemma posterior_cell_values_subsequence qvals lam st :
  match fst (posterior_cell norm_pdf density qvals lam st) with
  | Ok p => subseq (post_q p) qvals
  | Err _ => True
  end.
Proof.
  destruct qvals as [|q0 qs].
  - rewrite posterior_cell_empty. exact I.
  - set (qvals := q0 :: qs).
    destruct (posterior_cell_outcome qvals lam st)
      as (M & idx & _ & _ & Hin & Hs & Hcp); [discriminate|].
    rewrite Hcp. cbn [fst].
    destruct (take_columns lam idx) as [pl|e]; cbn [bind]; [|exact I].
    destruct (int_truediv (length idx) (shape0 lam)); cbn [bind]; [|exact I].
    cbn [post_q]. apply take_subseq; [exact Hs|].
    apply Forall_forall. intros i Hi. apply Hin, Hi.
Qed.

Lemma posterior_cell_parameters_subsequence qvals lam st :
  wf_ndarray2 lam ->
  match fst (posterior_cell norm_pdf density qvals lam st) with
  | Ok p => Forall2 subseq (rows (post_lam p)) (rows lam)
  | Err _ => True
  end.
Proof.
  intros Hwf. destruct qvals as [|q0 qs].
  - rewrite posterior_cell_empty. exact I.
  - set (qvals := q0 :: qs).
    destruct (posterior_cell_outcome qvals lam st)
      as (M & idx & _ & _ & _ & Hs & Hcp); [discriminate|].
    rewrite Hcp. cbn [fst]. unfold take_columns.
    destruct (forallb (fun i => i <? shape1 lam) idx) eqn:E; cbn [bind];
      [|exact I].
    destruct (int_truediv (length idx) (shape0 lam)); cbn [bind]; [|exact I].
    cbn [post_lam rows].
    rewrite forallb_forall in E.
    unfold wf_ndarray2 in Hwf. induction Hwf as [|row rws Hrow _ IH]; simpl.
    + constructor.
    + constructor; [|exact IH].
      apply take_subseq; [exact Hs|].
      apply Forall_forall. intros i Hi. rewrite Hrow.
      apply Nat.ltb_lt, E, Hi.
Qed.

Lemma posterior_cell_marginal_means (np_add_reduce : ndarray -> float)
  qvals lam st :
  match fst (posterior_cell norm_pdf density qvals lam st) with
  | Ok p =>
      length (marginal_means np_add_reduce p) = shape0 lam
      /\ forall d, d < shape0 lam ->
           nth d (marginal_means np_add_reduce p) 0%float
           = (np_add_reduce
                (map (fun i => nth i (nth d (rows lam) []) 0%float)
                   (samples_to_keep p))
              / float_of_nat (length (samples_to_keep p)))%float
  | Err _ => True
  end.
Proof.
  destruct qvals as [|q0 qs].
  - rewrite posterior_cell_empty. exact I.
  - set (qvals := q0 :: qs).
    destruct (posterior_cell_outcome qvals lam st)
      as (M & idx & _ & _ & _ & _ & Hcp); [discriminate|].
    rewrite Hcp. cbn [fst]. unfold take_columns.
    destruct (forallb (fun i => i <? shape1 lam) idx); cbn [bind]; [|exact I].
    destruct (int_truediv (length idx) (shape0 lam)); cbn [bind]; [|exact I].
    unfold marginal_means, np_mean_axis1, shape0, shape1.
    cbn [post_lam rows ncols samples_to_keep].
    split; [now rewrite !length_map|].
    intros d Hd. rewrite map_map.
    rewrite (map_nth_in _ _ _ _ []) by exact Hd. reflexivity.
Qed.

End PosteriorCellFacts.

Section PipelineTheorems.

Variable norm_pdf : float -> float -> float -> float.
Variable bw_method : Type.
Variable GKDE : ndarray -> bw_method -> result (float -> float).
Variable silverman : bw_method.

(** X9. After a successful fit and with a parameter array that has at
    least one row, the posterior cell raises [IndexError] exactly when the
    sampler accepts an index that is not a column of [lam]; gathering from
    [qvals] itself never fails. *)
Theorem compute_posterior_index_error_iff (qvals : ndarray) (lam : ndarray2)
  (st : RandomState) (density : float -> float) :
  GKDE qvals silverman = Ok density -> shape0 lam <> 0 ->
  fst (compute_posterior norm_pdf bw_method GKDE silverman qvals lam st)
  = Err IndexError
  <->
  exists idx,
    fst (rejection_sampling
           (np_divide (obs_vals norm_pdf qvals) (map density qvals)) st)
    = Ok idx
    /\ Exists (fun i => shape1 lam <= i) idx.
Proof.
  intros Hfit Hrows.
  rewrite (compute_posterior_fitted _ _ _ _ qvals lam st density Hfit).
  apply posterior_cell_index_error_iff, Hrows.
Qed.

(** X11. After a successful fit and with a parameter array that has at
    least one row, the posterior cell returns exactly when the sampler
    returns and every accepted index is a column of [lam]. *)
Theorem compute_posterior_succeeds_iff (qvals : ndarray) (lam : ndarray2)
  (st : RandomState) (density : float -> float) :
  GKDE qvals silverman = Ok density -> shape0 lam <> 0 ->
  (exists p,
     fst (compute_posterior norm_pdf bw_method GKDE silverman qvals lam st)
     = Ok p)
  <->
  exists idx,
    fst (rejection_sampling
           (np_divide (obs_vals norm_pdf qvals) (map density qvals)) st)
    = Ok idx
    /\ Forall (fun i => i < shape1 lam) idx.
Proof.
  intros Hfit Hrows.
  rewrite (compute_posterior_fitted _ _ _ _ qvals lam st density Hfit).
  apply posterior_cell_succeeds_iff, Hrows.
Qed.

(** X12. The posterior values are a subsequence of the prior values: the
    samples of [qvals] in their order, none of them twice. *)
Theorem posterior_values_subsequence (qvals : ndarray) (lam : ndarray2)
  (st : RandomState) :
  match fst (compute_posterior norm_pdf bw_method GKDE silverman qvals lam st)
  with
  | Ok p => subseq (post_q p) qvals
  | Err _ => True
  end.
Proof.
  unfold compute_posterior, q_kde.
  destruct (GKDE qvals silverman) as [density|e]; [|exact I].
  apply posterior_cell_values_subsequence.
Qed.

(** X13. Every row of [post_lam] is a subsequence of the same row of
    [lam]. *)
Theorem posterior_parameters_subsequence (qvals : ndarray) (lam : ndarray2)
  (st : RandomState) :
  wf_ndarray2 lam ->
  match fst (compute_posterior norm_pdf bw_method GKDE silverman qvals lam st)
  with
  | Ok p => Forall2 subseq (rows (post_lam p)) (rows lam)
  | Err _ => True
  end.
Proof.
  intros Hwf. unfold compute_posterior, q_kde.
  destruct (GKDE qvals silverman) as [density|e]; [|exact I].
  apply posterior_cell_parameters_subsequence, Hwf.
Qed.

(** X15. The bars of cell 9: one per row of [lam], and the [d]-th is the
    sum of the [d]-th parameter over the accepted samples divided by their
    number [K]. *)
Theorem marginal_means_over_accepted (np_add_reduce : ndarray -> float)
  (qvals : ndarray) (lam : ndarray2) (st : RandomState) :
  match fst (compute_posterior norm_pdf bw_method GKDE silverman qvals lam st)
  with
  | Ok p =>
      length (marginal_means np_add_reduce p) = shape0 lam
      /\ forall d, d < shape0 lam ->
           nth d (marginal_means np_add_reduce p) 0%float
           = (np_add_reduce
                (map (fun i => nth i (nth d (rows lam) []) 0%float)
                   (samples_to_keep p))
              / float_of_nat (length (samples_to_keep p)))%float
  | Err _ => True
  end.
Proof.
  unfold compute_posterior, q_kde.
  destruct (GKDE qvals silverman) as [density|e]; [|exact I].
  apply posterior_cell_marginal_means.
Qed.

End PipelineTheorems.

Lemma compute_posterior_index_error_iff_witness :
  fst (compute_posterior flat_pdf unit flat_kde tt qvals4 lam4x2
         (seeded [0.5; 0.25; 0.75; 0]%float))
  = Err IndexError
  <->
  exists idx,
    fst (rejection_sampling
           (np_divide (obs_vals flat_pdf qvals4)
              (map (fun _ => 1%float) qvals4))
           (seeded [0.5; 0.25; 0.75; 0]%float))
    = Ok idx
    /\ Exists (fun i => shape1 lam4x2 <= i) idx.
Proof.
  apply (compute_posterior_index_error_iff flat_pdf unit flat_kde tt).
  - reflexivity.
  - discriminate.
Defined.

Lemma compute_posterior_succeeds_iff_witness :
  (exists p,
     fst (compute_posterior flat_pdf unit flat_kde tt qvals4 lam2x4
            (seeded [0.5; 0.25; 0.75; 0]%float))
     = Ok p)
  <->
  exists idx,
    fst (rejection_sampling
           (np_divide (obs_vals flat_pdf qvals4)
              (map (fun _ => 1%float) qvals4))
           (seeded [0.5; 0.25; 0.75; 0]%float))
    = Ok idx
    /\ Forall (fun i => i < shape1 lam2x4) idx.
Proof.
  apply (compute_posterior_succeeds_iff flat_pdf unit flat_kde tt).
  - reflexivity.
  - discriminate.
Defined.

Lemma posterior_parameters_subsequence_witness :
  match fst (compute_posterior flat_pdf unit flat_kde tt qvals4 lam2x4
               (seeded [0.5; 0.25; 0.75; 0]%float))
  with
  | Ok p => Forall2 subseq (rows (post_lam p)) (rows lam2x4)
  | Err _ => True
  end.
Proof.
  apply (posterior_parameters_subsequence flat_pdf unit flat_kde tt).
  repeat constructor.
Defined.

(** * Further properties of the diagnostics *)

(** X16. When nothing was accepted the diagnostics cell raises nothing
    and prints NaN for the mean and for the standard deviation: both are
    [0 / 0], given that the sum of an empty array is 0. *)
Theorem diagnostics_of_empty_posterior (np_add_reduce : ndarray -> float)
  (np_log : float -> float) (p : posterior) :
  np_add_reduce [] = 0%float -> post_q p = [] ->
  is_nan (mean (diagnostics np_add_reduce np_log p)) = true
  /\ is_nan (std_dev (diagnostics np_add_reduce np_log p)) = true.
Proof.
  intros Hsum Hq. unfold diagnostics, np_var, np_var_ddof, np_mean.
  cbn [mean std_dev]. rewrite Hq. cbn [map np_multiply map2 length].
  rewrite Hsum. split; [vm_compute; reflexivity|].
  apply sqrt_nan. vm_compute. reflexivity.
Qed.

Lemma diagnostics_of_empty_posterior_witness :
  is_nan (mean (diagnostics sequential_sum (fun _ => 0%float)
                  {| r := [0; 0]%float; samples_to_keep := [];
                     post_q := []; post_lam := {| ncols := 0; rows := [[]; []] |};
                     accept_rate := 0%float |})) = true
  /\ is_nan (std_dev (diagnostics sequential_sum (fun _ => 0%float)
                  {| r := [0; 0]%float; samples_to_keep := [];
                     post_q := []; post_lam := {| ncols := 0; rows := [[]; []] |};
                     accept_rate := 0%float |})) = true.
Proof.
  apply diagnostics_of_empty_posterior; reflexivity.
Defined.
